(** * Retrieval core of the advanced RAG system

    A shallow embedding of the retrieval core of the repository:

    - [DocumentProcessor.process_document], [ContextManager],
      [AgentManager], [ImprovedRAGAgent]  (src/enhanced_rag_agent.py)
    - [SimpleRAGAgent.load_knowledge_base], [search_knowledge], [run],
      [run_advanced], [get_advanced_prompt], [clean_for_voice]
      (src/rag_agent.py)
    - [allowed_file] and the [chat] endpoint  (src/app.py)

    Python [str] values are modelled as lists of characters ([list ascii]);
    the model covers ASCII text (a non-ASCII character of a literal appears
    as its UTF-8 bytes).  Python [int] values are modelled as [Z].  The one
    floating-point expression of the core, [len(...) * 0.7], is modelled with
    the binary64 operations of the Standard Library's [SpecFloat].

    Debug output ([print], [logging], [traceback.print_exc]) and the timing
    decorator [timeit] only write to the console and are left out. *)

From Stdlib Require Import List ZArith QArith Lia Bool Ascii String.
From Stdlib Require Import Sorting.Sorted Sorting.Permutation.
From Stdlib Require Import Floats.SpecFloat.
Import ListNotations.

Open Scope string_scope.
Open Scope list_scope.
Open Scope Z_scope.

(* ================================================================== *)
(** * Part I: the embedding                                            *)
(* ================================================================== *)

(** ** Python strings *)

Definition str := list ascii.

Coercion list_ascii_of_string : string >-> list.

Definition len {A : Type} (l : list A) : Z := Z.of_nat (List.length l).

(** [c.isspace()] on the ASCII range: TAB, LF, VT, FF, CR, the four
    separators FS, GS, RS, US, and the space. *)
Definition isspace (c : ascii) : bool :=
  let n := Z.of_nat (nat_of_ascii c) in
  ((9 <=? n) && (n <=? 13)) || ((28 <=? n) && (n <=? 32)).

(** [c.lower()] on the ASCII range. *)
Definition lower_char (c : ascii) : ascii :=
  let n := nat_of_ascii c in
  if ((65 <=? n) && (n <=? 90))%nat then ascii_of_nat (n + 32) else c.

(** [s.lower()] *)
Definition lower (s : str) : str := map lower_char s.

(** The loop of [s.split()] (no argument): [cur] is the token being read. *)
Fixpoint split_ws_from (cur s : str) : list str :=
  match s with
  | [] => match cur with [] => [] | _ => [cur] end
  | c :: s' =>
      if isspace c
      then match cur with
           | [] => split_ws_from [] s'
           | _ => cur :: split_ws_from [] s'
           end
      else split_ws_from (cur ++ [c]) s'
  end.

(** [s.split()]: the maximal runs of non-whitespace characters. *)
Definition str_split (s : str) : list str := split_ws_from [] s.

(** [s.split(sep)] for a one-character separator: empty fields are kept
    and the result is never empty. *)
Fixpoint split_on (sep : ascii) (s : str) : list str :=
  match s with
  | [] => [[]]
  | c :: s' =>
      if Ascii.eqb c sep then [] :: split_on sep s'
      else match split_on sep s' with
           | h :: t => (c :: h) :: t
           | [] => [[c]]
           end
  end.

(** [sep.join(l)] *)
Fixpoint join (sep : str) (l : list str) : str :=
  match l with
  | [] => []
  | [x] => x
  | x :: rest => x ++ sep ++ join sep rest
  end.

(** [s.startswith(p)] *)
Fixpoint startswith (s p : str) : bool :=
  match p, s with
  | [], _ => true
  | _ :: _, [] => false
  | a :: p', b :: s' => Ascii.eqb a b && startswith s' p'
  end.

(** [p in s] for strings: [p] occurs as a substring of [s]. *)
Fixpoint contains (s p : str) : bool :=
  startswith s p ||
  match s with
  | [] => false
  | _ :: s' => contains s' p
  end.

(** The loop of [s.replace(old, new)] for a non-empty [old]: occurrences are
    replaced left to right without overlap; [skip] counts the characters of
    the occurrence just replaced that are still to be passed over. *)
Fixpoint replace_from (old new : str) (skip : nat) (s : str) : str :=
  match s with
  | [] => []
  | c :: s' =>
      match skip with
      | S k => replace_from old new k s'
      | O =>
          if startswith s old
          then new ++ replace_from old new (List.length old - 1) s'
          else c :: replace_from old new 0 s'
      end
  end.

Definition replace (s old new : str) : str := replace_from old new 0 s.

(** [s.lstrip()], [s.rstrip()], [s.strip()] *)
Fixpoint lstrip (s : str) : str :=
  match s with
  | [] => []
  | c :: s' => if isspace c then lstrip s' else s
  end.

Definition rstrip (s : str) : str := rev (lstrip (rev s)).

Definition strip (s : str) : str := rstrip (lstrip s).

(** ** Python sequences *)

(** How a slice bound is normalised against a sequence of length [n]:
    a negative bound counts from the end, and everything is clamped to
    [0 .. n]. *)
Definition slice_bound (n i : Z) : Z :=
  if i <? 0 then Z.max 0 (i + n) else Z.min i n.

(** [l[lo:hi]] *)
Definition py_slice {A : Type} (l : list A) (lo hi : Z) : list A :=
  let lo' := slice_bound (len l) lo in
  let hi' := slice_bound (len l) hi in
  firstn (Z.to_nat (hi' - lo')) (skipn (Z.to_nat lo') l).

(** [l[:hi]] *)
Definition py_take {A : Type} (l : list A) (hi : Z) : list A := py_slice l 0 hi.

(** ** Exceptions and results *)

Inductive exc_class : Type :=
  | ValueError
  | ConnectionRefusedError
  | OSError
  | OtherException (name : str).

(** An instance of [Exception]: its class, its [errno] attribute when it has
    one, and [str(e)]. *)
Record exn : Type := mk_exn
  { exn_class : exc_class;
    exn_errno : option Z;
    exn_str : str }.

Inductive res (A : Type) : Type :=
  | Ok (a : A)
  | Raise (e : exn).

Arguments Ok {A} a.
Arguments Raise {A} e.

Definition res_bind {A B : Type} (r : res A) (k : A -> res B) : res B :=
  match r with
  | Ok a => k a
  | Raise e => Raise e
  end.

(** ** [range] *)

(** The number of elements of [range(start, stop, step)] for [step <> 0]. *)
Definition range_len (start stop step : Z) : Z :=
  if 0 <? step
  then (if start <? stop then (stop - start - 1) / step + 1 else 0)
  else (if stop <? start then (start - stop - 1) / (- step) + 1 else 0).

Fixpoint range_from (start step : Z) (n : nat) : list Z :=
  match n with
  | O => []
  | S k => start :: range_from (start + step) step k
  end.

(** [range(start, stop, step)]; a zero step raises [ValueError]. *)
Definition py_range (start stop step : Z) : res (list Z) :=
  if step =? 0
  then Raise (mk_exn ValueError None "range() arg 3 must not be zero")
  else Ok (range_from start step (Z.to_nat (range_len start stop step))).

(** ** The chunker (src/enhanced_rag_agent.py) *)

Record DocumentProcessor : Type := mk_DocumentProcessor
  { chunk_size : Z;
    overlap : Z }.

(** The defaults of [Config]: [CHUNK_SIZE] 500 and [CHUNK_OVERLAP] 50. *)
Definition default_processor : DocumentProcessor := mk_DocumentProcessor 500 50.

(** [DocumentProcessor.process_document] *)
Definition process_document (self : DocumentProcessor) (text : str)
  : res (list str) :=
  match text with
  | [] => Ok []
  | _ =>
      let tokens := str_split text in
      let step := chunk_size self - overlap self in
      res_bind (py_range 0 (Z.max (len tokens - overlap self) 0) step)
        (fun r =>
           Ok (fold_left
                 (fun chunks i =>
                    let chunk := py_slice tokens i (i + chunk_size self) in
                    chunks ++ [join " " chunk])
                 r []))
  end.

(** The non-overlapping portions of a chunk sequence, as token lists: the
    whole first chunk, and every later chunk without the [overlap] tokens
    it shares with its predecessor. *)
Definition non_overlapping (ov : Z) (chunks : list str) : list str :=
  match chunks with
  | [] => []
  | c :: rest =>
      str_split c ++ List.concat (map (fun d => skipn (Z.to_nat ov) (str_split d)) rest)
  end.

(** ** Token sets *)

Fixpoint str_eqb (a b : str) : bool :=
  match a, b with
  | [], [] => true
  | x :: a', y :: b' => Ascii.eqb x y && str_eqb a' b'
  | _, _ => false
  end.

Definition mem (x : str) (l : list str) : bool := existsb (str_eqb x) l.

(** The distinct elements of a token list: [set(l)], in some order. *)
Fixpoint distinct (l : list str) : list str :=
  match l with
  | [] => []
  | x :: r => if mem x r then distinct r else x :: distinct r
  end.

(** [len(set(a) & set(b))] *)
Definition shared_count (a b : list str) : Z :=
  len (distinct (filter (fun t => mem t b) a)).

(** ** The product [n * 0.7] in binary64 *)

(** [float(n)] *)
Definition float_of_int (n : Z) : spec_float := binary_normalize 53 1024 n 0 false.

(** The literal [0.7]: the double 0x3FE6666666666666. *)
Definition float_0_7 : spec_float := S754_finite false 6305039478318694 (-53).

(** [n * 0.7] for an int [n] *)
Definition times_0_7 (n : Z) : spec_float := SFmul 53 1024 (float_of_int n) float_0_7.

(** [k > x] for an int [k] and a float [x]: Python compares the two exact
    values. *)
Definition int_gt_float (k : Z) (x : spec_float) : bool :=
  match x with
  | S754_zero _ => 0 <? k
  | S754_finite s m e =>
      let v := if s then Z.neg m else Z.pos m in
      if 0 <=? e then v * 2 ^ e <? k else v <? k * 2 ^ (- e)
  | S754_infinity s => s
  | S754_nan => false
  end.

(** ** Retrieval (src/rag_agent.py, [search_knowledge]) *)

Definition nl : str := ["010"%char].
Definition dquote : str := ["034"%char].

(** A scored section: [(score, context, i)]. *)
Definition section : Type := Z * str * Z.

Definition sec_score (x : section) : Z := fst (fst x).
Definition sec_context (x : section) : str := snd (fst x).
Definition sec_index (x : section) : Z := snd x.

(** [enumerate(l)], counting from [i] *)
Fixpoint enumerate_from {A : Type} (i : Z) (l : list A) : list (Z * A) :=
  match l with
  | [] => []
  | x :: r => (i, x) :: enumerate_from (i + 1) r
  end.

Definition enumerate {A : Type} (l : list A) : list (Z * A) := enumerate_from 0 l.

(** The score the loop body of [search_knowledge] gives one line. *)
Definition line_score (query_lower : str) (query_words : list str) (line : str) : Z :=
  let line_lower := lower line in
  let score :=
    fold_left
      (fun score word => if contains line_lower word then score + 1 else score)
      query_words 0 in
  if contains line_lower query_lower then score + len query_words else score.

(** The context of line [i]: three lines before and after. *)
Definition context_at (lines : list str) (i : Z) : str :=
  let start := Z.max 0 (i - 3) in
  let end_ := Z.min (len lines) (i + 4) in
  join nl (py_slice lines start end_).

(** The scoring loop: [relevant_sections] after the loop over
    [enumerate(lines)]. *)
Definition relevant_sections (query_lower : str) (query_words : list str)
    (lines : list str) : list section :=
  fold_left
    (fun acc il =>
       let score := line_score query_lower query_words (snd il) in
       if 0 <? score
       then acc ++ [(score, context_at lines (fst il), fst il)]
       else acc)
    (enumerate lines) [].

(** [l.sort(key=lambda x: x[0], reverse=True)]: a stable sort, descending in
    the score; sections of equal score keep their order. *)
Fixpoint insert_section (x : section) (l : list section) : list section :=
  match l with
  | [] => [x]
  | y :: r =>
      if sec_score x <? sec_score y then y :: insert_section x r else x :: l
  end.

Definition sort_sections (l : list section) : list section :=
  fold_right insert_section [] l.

(** The test of the deduplication loop:
    [len(set(match.split()) & set(existing.split())) > len(match.split()) * 0.7] *)
Definition overlaps (match_ existing : str) : bool :=
  int_gt_float (shared_count (str_split match_) (str_split existing))
               (times_0_7 (len (str_split match_))).

(** The inner loop: [is_duplicate] after going through [unique_matches]. *)
Definition is_duplicate (match_ : str) (unique_matches : list str) : bool :=
  existsb (overlaps match_) unique_matches.

(** The deduplication loop: [unique_matches] after going through
    [top_matches]. *)
Definition deduplicate (top_matches : list str) : list str :=
  fold_left
    (fun unique_matches match_ =>
       if is_duplicate match_ unique_matches
       then unique_matches
       else unique_matches ++ [match_])
    top_matches [].

Definition separator : str := nl ++ nl ++ "---" ++ nl ++ nl.

(** The candidates of the deduplication loop: [top_matches]. *)
Definition top_matches (sections : list section) : list str :=
  map sec_context (py_take (sort_sections sections) 4).

(** The returned string: ['\n\n---\n\n'.join(unique_matches[:3])]. *)
Definition assemble (unique_matches : list str) : str :=
  join separator (py_take unique_matches 3).

(** What [search_knowledge] does with a non-empty [relevant_sections]. *)
Definition select_and_join (sections : list section) : str :=
  assemble (deduplicate (top_matches sections)).

(** [SimpleRAGAgent.search_knowledge], as a function of the knowledge base
    it reads. *)
Definition search_knowledge (knowledge_base query : str) : str :=
  match knowledge_base with
  | [] => "No knowledge base available"
  | _ =>
      let query_lower := lower query in
      let query_words := str_split query_lower in
      let lines := split_on "010"%char knowledge_base in
      match relevant_sections query_lower query_words lines with
      | [] => "No relevant information found in knowledge base"
      | sections => select_and_join sections
      end
  end.

(** ** Prompts ([get_advanced_prompt]) *)

(** The template of the [enhanced] strategy. *)
Definition enhanced_prompt (user_input context : str) : str :=
  "You are an advanced AI assistant with enhanced contextual understanding. You have access to a comprehensive knowledge base and should provide detailed, nuanced responses." ++ nl ++
  nl ++
  "KNOWLEDGE BASE CONTEXT:" ++ nl ++
  context ++ nl ++
  nl ++
  "USER QUERY: " ++ user_input ++ nl ++
  nl ++
  "ENHANCED INSTRUCTIONS:" ++ nl ++
  "- Analyze the query for implicit requirements and context" ++ nl ++
  "- Use multi-layered reasoning to connect information across different sources" ++ nl ++
  "- Provide comprehensive answers with supporting evidence" ++ nl ++
  "- Consider alternative interpretations and edge cases" ++ nl ++
  "- Structure your response with clear reasoning chains" ++ nl ++
  "- When relevant, explain the methodology behind your conclusions" ++ nl ++
  "- Identify any limitations or assumptions in your response" ++ nl ++
  nl ++
  "Please provide a thorough, well-reasoned response:".

(** The template of the [analytical] strategy. *)
Definition analytical_prompt (user_input context : str) : str :=
  "You are a specialized analytical AI assistant focused on systematic analysis and structured reasoning. Break down complex problems methodically." ++ nl ++
  nl ++
  "KNOWLEDGE BASE CONTEXT:" ++ nl ++
  context ++ nl ++
  nl ++
  "ANALYTICAL QUERY: " ++ user_input ++ nl ++
  nl ++
  "ANALYTICAL FRAMEWORK:" ++ nl ++
  "1. PROBLEM DECOMPOSITION:" ++ nl ++
  "   - Identify key components and relationships" ++ nl ++
  "   - Determine relevant variables and constraints" ++ nl ++
  "   - Map dependencies and causal relationships" ++ nl ++
  nl ++
  "2. EVIDENCE ANALYSIS:" ++ nl ++
  "   - Evaluate source credibility and relevance" ++ nl ++
  "   - Identify patterns, trends, and anomalies" ++ nl ++
  "   - Cross-reference multiple data points" ++ nl ++
  nl ++
  "3. SYSTEMATIC REASONING:" ++ nl ++
  "   - Apply logical frameworks and methodologies" ++ nl ++
  "   - Consider multiple perspectives and scenarios" ++ nl ++
  "   - Validate conclusions against available evidence" ++ nl ++
  nl ++
  "4. SYNTHESIS AND RECOMMENDATIONS:" ++ nl ++
  "   - Integrate findings into coherent insights" ++ nl ++
  "   - Propose actionable recommendations" ++ nl ++
  "   - Identify areas requiring further investigation" ++ nl ++
  nl ++
  "Provide your analytical response following this structured approach:".

(** The template of the [creative] strategy. *)
Definition creative_prompt (user_input context : str) : str :=
  "You are a creative and innovative AI assistant that thinks beyond conventional boundaries. Use imaginative approaches while maintaining accuracy." ++ nl ++
  nl ++
  "KNOWLEDGE BASE CONTEXT:" ++ nl ++
  context ++ nl ++
  nl ++
  "CREATIVE CHALLENGE: " ++ user_input ++ nl ++
  nl ++
  "CREATIVE INSTRUCTIONS:" ++ nl ++
  "- Explore unconventional angles and perspectives" ++ nl ++
  "- Generate novel connections between seemingly unrelated concepts" ++ nl ++
  "- Use analogies, metaphors, and creative explanations" ++ nl ++
  "- Propose innovative solutions or approaches" ++ nl ++
  "- Think outside traditional frameworks while remaining grounded in facts" ++ nl ++
  "- Encourage exploration of possibilities and " ++ dquote ++ "what-if" ++ dquote ++ " scenarios" ++ nl ++
  "- Balance creativity with practical applicability" ++ nl ++
  nl ++
  "Let your creativity flow while providing valuable insights:".

(** The template of the [simple] strategy, the default; [run] builds its
    prompt from the same text. *)
Definition simple_prompt (user_input context : str) : str :=
  "You are an intelligent AI assistant with access to a knowledge base. Please provide helpful, accurate, and detailed responses." ++ nl ++
  nl ++
  "CONTEXT FROM KNOWLEDGE BASE:" ++ nl ++
  context ++ nl ++
  nl ++
  "USER QUESTION: " ++ user_input ++ nl ++
  nl ++
  "INSTRUCTIONS:" ++ nl ++
  "- Use the provided context when relevant to answer the question" ++ nl ++
  "- If the context doesn't contain relevant information, use your general knowledge" ++ nl ++
  "- Be comprehensive but concise" ++ nl ++
  "- Provide specific details when available" ++ nl ++
  "- If you're unsure about something, say so rather than guessing" ++ nl ++
  nl ++
  "RESPONSE:".


(** [SimpleRAGAgent.get_advanced_prompt] *)
Definition get_advanced_prompt (user_input context strategy : str) : str :=
  if str_eqb strategy "enhanced" then enhanced_prompt user_input context
  else if str_eqb strategy "analytical" then analytical_prompt user_input context
  else if str_eqb strategy "creative" then creative_prompt user_input context
  else simple_prompt user_input context.

(** ** Post-processing ([clean_for_voice]) *)

(** The text after the three lines of replacements. *)
Definition strip_markup (text : str) : str :=
  let text := replace (replace text "**" "") "*" "" in
  let text := replace (replace text "```" "") "`" "" in
  replace text nl ". ".

(** [SimpleRAGAgent.clean_for_voice] *)
Definition clean_for_voice (text : str) : str :=
  let text := strip_markup text in
  let text := if 500 <? len text then py_take text 500 ++ "..." else text in
  strip text.

(** ** The agent ([SimpleRAGAgent]) *)

Section Agent.

(** Python floats that are only passed on to the completion service. *)
Variable pyfloat : Type.
(** The literals [0.3], [0.9] and [1.1]. *)
Variables float_0_3 float_0_9 float_1_1 : pyfloat.
(** [errno.ECONNREFUSED], a constant of the platform. *)
Variable ECONNREFUSED : Z.

(** The parameters an [OllamaLLM] object is built with. *)
Record OllamaLLM : Type := mk_OllamaLLM
  { model : str;
    temperature : pyfloat;
    top_p : pyfloat;
    repeat_penalty : pyfloat;
    num_ctx : Z }.

(** The completion service: [l.invoke(prompt)] returns a string or raises,
    and may leave its receiver [l] in another state. *)
Variable invoke : OllamaLLM -> str -> res str * OllamaLLM.

(** The attributes of an agent. *)
Record SimpleRAGAgent : Type := mk_SimpleRAGAgent
  { llm : OllamaLLM;
    fast_mode : bool;
    knowledge_base : str }.

(** [SimpleRAGAgent.__init__]; [loaded] is what [load_knowledge_base]
    read from the file system. *)
Definition __init__ (fast : bool) (loaded : str) : SimpleRAGAgent :=
  let model : str := if fast then "llama3.2:1b" : str else "mistral:7b" in
  {| llm := {| model := model;
               temperature := float_0_3;
               top_p := float_0_9;
               repeat_penalty := float_1_1;
               num_ctx := if fast then 8192 else 16384 |};
     fast_mode := fast;
     knowledge_base := loaded |}.

(** Methods run on an agent, return or raise, and leave the agent in a
    possibly different state. *)
Definition M (A : Type) : Type := SimpleRAGAgent -> res A * SimpleRAGAgent.

Definition ret {A : Type} (a : A) : M A := fun self => (Ok a, self).

Definition bind {A B : Type} (m : M A) (k : A -> M B) : M B :=
  fun self =>
    match m self with
    | (Ok a, self') => k a self'
    | (Raise e, self') => (Raise e, self')
    end.

(** [try: body  except Exception as e: handler] *)
Definition try_except {A : Type} (body : M A) (handler : exn -> M A) : M A :=
  fun self =>
    match body self with
    | (Ok a, self') => (Ok a, self')
    | (Raise e, self') => handler e self'
    end.

(** Reading an attribute of [self]. *)
Definition read {A : Type} (f : SimpleRAGAgent -> A) : M A :=
  fun self => (Ok (f self), self).

(** [self.llm.invoke(prompt)]: the receiver is the agent's own object. *)
Definition invoke_own (prompt : str) : M str :=
  fun self =>
    let (r, llm') := invoke (llm self) prompt in
    (r, {| llm := llm'; fast_mode := fast_mode self;
           knowledge_base := knowledge_base self |}).

(** [l.invoke(prompt)] for a local object [l], which is dropped after. *)
Definition invoke_local (l : OllamaLLM) (prompt : str) : M str :=
  fun self => (fst (invoke l prompt), self).

Notation "x <- m ;; k" := (bind m (fun x => k))
  (at level 61, m at next level, right associativity).

(** [SimpleRAGAgent.run] *)
Definition run (user_input : str) : M str :=
  try_except
    (kb <- read knowledge_base ;;
     let context := search_knowledge kb user_input in
     let prompt := simple_prompt user_input context in
     response <- invoke_own prompt ;;
     ret (clean_for_voice response))
    (fun e =>
       ret ("I encountered a technical error: " ++ exn_str e
            ++ ". Please try again or contact support.")).

(** [isinstance(e, ConnectionRefusedError)
     or getattr(e, 'errno', None) == errno.ECONNREFUSED] *)
Definition connection_refused (e : exn) : bool :=
  match exn_class e with
  | ConnectionRefusedError => true
  | _ => match exn_errno e with
         | Some n => n =? ECONNREFUSED
         | None => false
         end
  end.

(** The object [run_advanced] builds for one call:
    [OllamaLLM(model="mistral:7b", temperature=temperature, top_p=0.9,
    repeat_penalty=1.1, num_ctx=max_context)]. *)
Definition new_advanced_llm (temperature : pyfloat) (max_context : Z) : OllamaLLM :=
  {| model := "mistral:7b";
     temperature := temperature;
     top_p := float_0_9;
     repeat_penalty := float_1_1;
     num_ctx := max_context |}.

(** [SimpleRAGAgent.run_advanced] *)
Definition run_advanced (user_input : str) (temperature : pyfloat)
    (max_context : Z) (prompt_strategy : str) : M str :=
  try_except
    (let advanced_llm := new_advanced_llm temperature max_context in
     kb <- read knowledge_base ;;
     let context := search_knowledge kb user_input in
     let prompt := get_advanced_prompt user_input context prompt_strategy in
     response <- invoke_local advanced_llm prompt ;;
     ret (clean_for_voice response))
    (fun e =>
       if connection_refused e
       then ret ("I’m unable to connect to the local LLM server. "
                 ++ "Please ensure it’s running and accessible, then try again or contact support.")
       else ret ("I encountered a technical error in advanced mode: " ++ exn_str e
                 ++ ". Please try again or contact support.")).

End Agent.

Arguments mk_OllamaLLM {pyfloat}.
Arguments model {pyfloat}.
Arguments temperature {pyfloat}.
Arguments top_p {pyfloat}.
Arguments repeat_penalty {pyfloat}.
Arguments num_ctx {pyfloat}.
Arguments mk_SimpleRAGAgent {pyfloat}.
Arguments llm {pyfloat}.
Arguments fast_mode {pyfloat}.
Arguments knowledge_base {pyfloat}.

(** ** The specification's wording of the line score *)

(** The number of query words that occur in the lowercased line, plus the
    number of query words when the whole lowercased query occurs in it. *)
Definition spec_line_score (query line : str) : Z :=
  let words := str_split (lower query) in
  len (filter (fun w => contains (lower line) w) words)
  + (if contains (lower line) (lower query) then len words else 0).

(** A word: not empty and without whitespace. *)
Definition word (w : str) : Prop :=
  w <> [] /\ forallb (fun c => negb (isspace c)) w = true.

(** ** Sample inputs *)

Definition strs (l : list string) : list str := map list_ascii_of_string l.

(** Twelve lines: four lines that match ["cat"], seven empty lines and one
    more matching line. *)
Definition sample_knowledge_base : str :=
  join nl (strs ["cat1"; "cat2"; "cat3"; "cat4";
                 ""; ""; ""; ""; ""; ""; ""; "dog cat"]).

(** A completion service that refuses every connection. *)
Definition refusing_service (l : OllamaLLM Q) (prompt : str)
  : res str * OllamaLLM Q :=
  (Raise (mk_exn ConnectionRefusedError (Some 111) "[Errno 111] Connection refused"), l).

(** A standard agent over a two-line knowledge base. *)
Definition sample_agent : SimpleRAGAgent Q :=
  __init__ Q (3 # 10)%Q (9 # 10)%Q (11 # 10)%Q false ("cat facts" ++ nl ++ "dog facts").

(** ** The conversation window (src/enhanced_rag_agent.py, [ContextManager]) *)

(** The values [Config] reads from the environment when the module is
    loaded. *)
Record Config : Type := mk_Config
  { AGENT_TYPES : list str;
    CONTEXT_WINDOW : Z;
    CHUNK_SIZE : Z;
    CHUNK_OVERLAP : Z }.

(** [Config] when the environment sets none of its variables. *)
Definition default_config : Config := mk_Config ["default" : str] 5 500 50.

(** [DocumentProcessor()] *)
Definition new_DocumentProcessor (cfg : Config) : DocumentProcessor :=
  mk_DocumentProcessor (CHUNK_SIZE cfg) (CHUNK_OVERLAP cfg).

(** A [collections.deque] of strings: its [maxlen] ([None] when it is not
    bounded) and its items, oldest first. *)
Record deque : Type := mk_deque
  { maxlen : option Z;
    items : list str }.

(** [deque(maxlen=n)]; a negative [n] raises [ValueError]. *)
Definition new_deque (n : Z) : res deque :=
  if n <? 0
  then Raise (mk_exn ValueError None "maxlen must be non-negative")
  else Ok (mk_deque (Some n) []).

(** [d.append(x)]: when the deque is over its [maxlen] after the append, the
    oldest item is dropped. *)
Definition deque_append (d : deque) (x : str) : deque :=
  let items' := items d ++ [x] in
  match maxlen d with
  | Some m => mk_deque (Some m) (if m <? len items' then tl items' else items')
  | None => mk_deque None items'
  end.

Record ContextManager : Type := mk_ContextManager
  { window_size : Z;
    history : deque }.

(** [ContextManager()] *)
Definition new_ContextManager (cfg : Config) : res ContextManager :=
  res_bind (new_deque (CONTEXT_WINDOW cfg))
    (fun d => Ok (mk_ContextManager (CONTEXT_WINDOW cfg) d)).

(** [ContextManager.manage_context]: the returned context and the manager
    after the call. *)
Definition manage_context (self : ContextManager) (conversation_history : list str)
  : str * ContextManager :=
  let history' := fold_left deque_append conversation_history (history self) in
  (join nl (items history'), mk_ContextManager (window_size self) history').

(** ** Routing (src/enhanced_rag_agent.py, [AgentManager]) *)

Section AgentManager.

(** References to agent objects, and the state of all of them. *)
Variable Agent : Type.
Variable Store : Type.
(** [agent.run(query)] *)
Variable agent_run : Agent -> str -> Store -> res str * Store.

(** [agents.get(key)] on a dict given by its items in insertion order. *)
Fixpoint dict_get (agents : list (str * Agent)) (key : str) : option Agent :=
  match agents with
  | [] => None
  | (k, agent) :: rest => if str_eqb k key then Some agent else dict_get rest key
  end.

(** The loop of [route_query] over the items still to visit. *)
Fixpoint route_loop (q : str) (agents todo : list (str * Agent)) : option Agent :=
  match todo with
  | [] => dict_get agents "default"
  | (key, agent) :: rest =>
      if contains q key then Some agent else route_loop q agents rest
  end.

(** [AgentManager.route_query] *)
Definition route_query (agents : list (str * Agent)) (query : str) : option Agent :=
  let q := lower query in
  route_loop q agents agents.

(** [AgentManager.run] *)
Definition manager_run (agents : list (str * Agent)) (query : str)
  : Store -> res str * Store :=
  match route_query agents query with
  | None =>
      fun store =>
        (Raise (mk_exn ValueError None "No agent available to handle the query"), store)
  | Some agent => agent_run agent query
  end.

End AgentManager.

Arguments dict_get {Agent}.
Arguments route_loop {Agent}.
Arguments route_query {Agent}.
Arguments manager_run {Agent Store}.

(** [c.isupper()] on the ASCII range. *)
Definition isupper_char (c : ascii) : bool :=
  let n := nat_of_ascii c in ((65 <=? n) && (n <=? 90))%nat.

(** ** Loading the knowledge base (src/rag_agent.py) *)

(** What opening and reading a text file comes to. *)
Inductive read_outcome : Type :=
  | OpenFails (e : exn)
  | ReadFails (e : exn)
  | Content (s : str).

(** The part of the file system the loader looks at. *)
Record file_system : Type := mk_file_system
  { (** [knowledge_base.txt]; [None] when it does not exist *)
    knowledge_base_txt : option read_outcome;
    (** [doccydocs]: [None] when [os.path.exists('doccydocs')] is false;
        otherwise what [os.listdir('doccydocs')] returns, or the exception it
        raises (the path is a regular file, or cannot be read) *)
    doccydocs : option (res (list str));
    (** [open(path, 'r')] and [f.read()] *)
    read_text : str -> read_outcome;
    (** [PyPDF2.PdfReader]: the text of each page of the file, or the
        exception raised on the way *)
    pdf_pages : str -> res (list str) }.

(** [s.endswith(suffix)] *)
Definition endswith (s suffix : str) : bool := startswith (rev s) (rev suffix).

(** [SimpleRAGAgent.extract_pdf_text] *)
Definition extract_pdf_text (fs : file_system) (pdf_path : str) : str :=
  match pdf_pages fs pdf_path with
  | Ok pages => fold_left (fun text page => text ++ page ++ nl) pages []
  | Raise _ => []
  end.

(** One round of the loop over [os.listdir('doccydocs')]. *)
Definition load_file (fs : file_system) (knowledge_content filename : str) : str :=
  let file_path := "doccydocs/" ++ filename in
  if endswith filename ".txt" then
    match read_text fs file_path with
    | OpenFails _ => knowledge_content
    | ReadFails _ => knowledge_content ++ "=== " ++ filename ++ " ===" ++ nl
    | Content s =>
        (knowledge_content ++ "=== " ++ filename ++ " ===" ++ nl) ++ s ++ nl ++ nl
    end
  else if endswith filename ".pdf" then
    let pdf_text := extract_pdf_text fs file_path in
    match strip pdf_text with
    | [] => knowledge_content
    | _ => (knowledge_content ++ "=== " ++ filename ++ " ===" ++ nl) ++ pdf_text ++ nl ++ nl
    end
  else knowledge_content.

(** [SimpleRAGAgent.load_knowledge_base] *)
Definition load_knowledge_base (fs : file_system) : res str :=
  res_bind
    (match knowledge_base_txt fs with
     | None => Ok []
     | Some (Content s) => Ok ([] ++ s ++ nl ++ nl)
     | Some (OpenFails e) => Raise e
     | Some (ReadFails e) => Raise e
     end)
    (fun knowledge_content =>
       match doccydocs fs with
       | None => Ok knowledge_content
       | Some listdir =>
           res_bind listdir
             (fun filenames => Ok (fold_left (load_file fs) filenames knowledge_content))
       end).

(** What the loop adds for one file. *)
Definition file_section (fs : file_system) (filename : str) : str :=
  load_file fs [] filename.

(** ** Uploads (src/app.py, [allowed_file]) *)

Definition ALLOWED_EXTENSIONS : list str := strs ["txt"; "pdf"; "doc"; "docx"; "md"].

(** The text before and the text after the last [sep] of [s]. *)
Fixpoint split_last (sep : ascii) (s : str) : option (str * str) :=
  match s with
  | [] => None
  | c :: s' =>
      match split_last sep s' with
      | Some (before, after) => Some (c :: before, after)
      | None => if Ascii.eqb c sep then Some ([], s') else None
      end
  end.

(** [s.rsplit(sep, 1)] for a one-character separator. *)
Definition rsplit1 (sep : ascii) (s : str) : list str :=
  match split_last sep s with
  | Some (before, after) => [before; after]
  | None => [s]
  end.

(** [allowed_file] *)
Definition allowed_file (filename : str) : bool :=
  contains filename "." &&
  match nth_error (rsplit1 "."%char filename) 1 with
  | Some extension => mem (lower extension) ALLOWED_EXTENSIONS
  | None => false
  end.

(** ** The enhanced agent (src/enhanced_rag_agent.py, [ImprovedRAGAgent]) *)

Section Improved.

Variable pyfloat : Type.
Variables float_0_3 float_0_9 float_1_1 : pyfloat.
Variable invoke : OllamaLLM pyfloat -> str -> res str * OllamaLLM pyfloat.

(** The object behind the key ['default']: a [SimpleRAGAgent], or the mock
    object made when that could not be built. *)
Inductive agent_object : Type :=
  | RealAgent (a : SimpleRAGAgent pyfloat)
  | MockAgent.

(** The one agent object an [ImprovedRAGAgent] creates. *)
Inductive agent_ref : Type := default_agent_ref.

(** [agent.run(query)] on the object. *)
Definition object_run (query : str) (o : agent_object) : res str * agent_object :=
  match o with
  | RealAgent a =>
      let (r, a') := run pyfloat invoke query a in (r, RealAgent a')
  | MockAgent =>
      (Ok ("Error: Could not connect to LLM service. Query was: " ++ query), MockAgent)
  end.

(** The attributes of an [ImprovedRAGAgent]; [manager] is the dict of its
    [AgentManager] and [default_agent] the state of the object in it. *)
Record ImprovedRAGAgent : Type := mk_ImprovedRAGAgent
  { processor : DocumentProcessor;
    context_mgr : ContextManager;
    manager : list (str * agent_ref);
    default_agent : agent_object }.

(** [ImprovedRAGAgent.__init__]; [created] is what
    [SimpleRAGAgent(fast_mode=True)] came to. *)
Definition improved_init (cfg : Config) (created : res (SimpleRAGAgent pyfloat))
  : res ImprovedRAGAgent :=
  let processor := new_DocumentProcessor cfg in
  res_bind (new_ContextManager cfg)
    (fun context_mgr =>
       let default_agent :=
         match created with
         | Ok a => RealAgent a
         | Raise _ => MockAgent
         end in
       Ok (mk_ImprovedRAGAgent processor context_mgr
             [("default" : str, default_agent_ref)] default_agent)).

(** [ImprovedRAGAgent.ingest_document]: it returns [None]. *)
Definition ingest_document (text : str) (self : ImprovedRAGAgent)
  : res unit * ImprovedRAGAgent :=
  (res_bind (process_document (processor self) text) (fun chunks => Ok tt), self).

(** [ImprovedRAGAgent.chat] *)
Definition improved_chat (query : str) (history : list str) (self : ImprovedRAGAgent)
  : res str * ImprovedRAGAgent :=
  let (_, context_mgr') := manage_context (context_mgr self) (history ++ [query]) in
  let (r, default_agent') :=
    manager_run (fun _ => object_run) (manager self) query (default_agent self) in
  (r, mk_ImprovedRAGAgent (processor self) context_mgr' (manager self) default_agent').

(** [ImprovedRAGAgent.run] *)
Definition improved_run (user_input : str) (self : ImprovedRAGAgent)
  : res str * ImprovedRAGAgent :=
  improved_chat user_input [] self.

End Improved.

Arguments RealAgent {pyfloat}.
Arguments MockAgent {pyfloat}.
Arguments processor {pyfloat}.
Arguments context_mgr {pyfloat}.
Arguments manager {pyfloat}.
Arguments default_agent {pyfloat}.

(** ** The chat endpoint (src/app.py, [chat]) *)

Section Chat.

Variable pyfloat : Type.
Variables float_0_3 float_0_9 float_1_1 : pyfloat.
Variable ECONNREFUSED : Z.
Variable invoke : OllamaLLM pyfloat -> str -> res str * OllamaLLM pyfloat.

(** The JSON object of a request: each key is there or not; a key that is
    there holds a value of the type the handler expects. *)
Record chat_request : Type := mk_chat_request
  { req_message : option str;
    req_mode : option str;
    req_temperature : option pyfloat;
    req_max_context : option Z;
    req_prompt_strategy : option str;
    req_response_mode : option str }.

(** [data.get(key, default)] *)
Definition get_or {A : Type} (field : option A) (default : A) : A :=
  match field with
  | Some v => v
  | None => default
  end.

(** The global [agent] of the application. *)
Inductive app_agent : Type :=
  | SimpleApp (a : SimpleRAGAgent pyfloat)
  | ImprovedApp (a : ImprovedRAGAgent pyfloat).

(** [SimpleRAGAgent(fast_mode=fast)] on a file system. *)
Definition new_SimpleRAGAgent (fs : file_system) (fast : bool)
  : res (SimpleRAGAgent pyfloat) :=
  res_bind (load_knowledge_base fs)
    (fun loaded => Ok (__init__ pyfloat float_0_3 float_0_9 float_1_1 fast loaded)).

(** The body of the [try] of [chat]: the response, or the exception, and
    the global [agent] afterwards. *)
Definition chat_body (data : chat_request) (fs : file_system) (agent : app_agent)
  : res str * app_agent :=
  let user_message := get_or (req_message data) "" in
  let mode := get_or (req_mode data) "simple" in
  match user_message with
  | [] => (Ok ("Please provide a message." : str), agent)
  | _ =>
      match agent with
      | SimpleApp a =>
          if str_eqb mode "advanced" then
            let temperature := get_or (req_temperature data) float_0_3 in
            let max_context := get_or (req_max_context data) 16384 in
            let prompt_strategy := get_or (req_prompt_strategy data) "simple" in
            let response_mode := get_or (req_response_mode data) "standard" in
            let replaced :=
              if str_eqb response_mode "fast" && negb (fast_mode a)
              then new_SimpleRAGAgent fs true
              else if str_eqb response_mode "standard" && fast_mode a
              then new_SimpleRAGAgent fs false
              else Ok a in
            match replaced with
            | Raise e => (Raise e, SimpleApp a)
            | Ok a1 =>
                let (response, a2) :=
                  run_advanced pyfloat float_0_9 float_1_1 ECONNREFUSED invoke
                    user_message temperature max_context prompt_strategy a1 in
                (response, SimpleApp a2)
            end
          else
            let (response, a') := run pyfloat invoke user_message a in
            (response, SimpleApp a')
      | ImprovedApp a =>
          let (response, a') := improved_run pyfloat invoke user_message a in
          (response, ImprovedApp a')
      end
  end.

(** [chat]: the ['response'] of the JSON reply, and the global [agent]
    afterwards. *)
Definition chat (data : chat_request) (fs : file_system) (agent : app_agent)
  : str * app_agent :=
  match chat_body data fs agent with
  | (Ok response, agent') => (response, agent')
  | (Raise e, agent') => ("Error: " ++ exn_str e, agent')
  end.

End Chat.

Arguments mk_chat_request {pyfloat}.
Arguments req_message {pyfloat}.
Arguments req_mode {pyfloat}.
Arguments req_temperature {pyfloat}.
Arguments req_max_context {pyfloat}.
Arguments req_prompt_strategy {pyfloat}.
Arguments req_response_mode {pyfloat}.
Arguments SimpleApp {pyfloat}.
Arguments ImprovedApp {pyfloat}.

(** ** More sample inputs *)

(** A completion service that answers every prompt with two lines. *)
Definition answering_service (l : OllamaLLM Q) (prompt : str)
  : res str * OllamaLLM Q :=
  (Ok ("**Cats** purr." ++ nl ++ "Dogs bark."), l).

(** A folder with one readable text file, one text file that cannot be
    opened, one PDF without text and one file of another kind. *)
Definition sample_file_system : file_system :=
  {| knowledge_base_txt := None;
     doccydocs := Some (Ok (strs ["cats.txt"; "locked.txt"; "scan.pdf"; "notes.md"]));
     read_text := fun path =>
       if str_eqb path "doccydocs/cats.txt" then Content "cat facts"
       else OpenFails (mk_exn OSError (Some 13) "[Errno 13] Permission denied");
     pdf_pages := fun path => Ok [" " : str] |}.

(** A readable [knowledge_base.txt] beside a regular file named
    [doccydocs]: the path exists and cannot be listed. *)
Definition doccydocs_is_a_file : file_system :=
  {| knowledge_base_txt := Some (Content "cat facts");
     doccydocs :=
       Some (Raise (mk_exn (OtherException "NotADirectoryError") (Some 20)
                      "[Errno 20] Not a directory: 'doccydocs'"));
     read_text := fun path =>
       OpenFails (mk_exn (OtherException "NotADirectoryError") (Some 20)
                    "[Errno 20] Not a directory");
     pdf_pages := fun path => Ok [] |}.

(** A completion service that raises [e] on every call. *)
Definition raising_service (e : exn) (l : OllamaLLM Q) (prompt : str)
  : res str * OllamaLLM Q :=
  (Raise e, l).

(** A completion service that has only the model [mistral:7b]: it answers
    for it and raises for every other model. *)
Definition mistral_only_service (l : OllamaLLM Q) (prompt : str)
  : res str * OllamaLLM Q :=
  if str_eqb (model l) "mistral:7b"
  then (Ok ("**Cats** purr." ++ nl ++ "Dogs bark."), l)
  else (Raise (mk_exn ValueError None "model not found"), l).

(** A fast agent over the two-line knowledge base. *)
Definition sample_fast_agent : SimpleRAGAgent Q :=
  __init__ Q (3 # 10)%Q (9 # 10)%Q (11 # 10)%Q true ("cat facts" ++ nl ++ "dog facts").

(* ================================================================== *)
(** * Part II: properties                                              *)
(* ================================================================== *)

(** ** Strings and lists *)

Lemma str_eqb_eq (a b : str) : str_eqb a b = true <-> a = b.
Proof.
  revert b; induction a as [|x a IH]; intros [|y b]; simpl;
    try (split; [discriminate | discriminate]); try tauto.
  rewrite andb_true_iff, Ascii.eqb_eq, IH.
  split; [intros [-> ->]; reflexivity | intros H; inversion H; auto].
Qed.

Lemma str_eqb_neq (a b : str) : a <> b -> str_eqb a b = false.
Proof.
  intros H. destruct (str_eqb a b) eqn:E; [|reflexivity].
  apply str_eqb_eq in E. contradiction.
Qed.

Lemma len_nonneg {A : Type} (l : list A) : 0 <= len l.
Proof. unfold len; lia. Qed.

Lemma len_app {A : Type} (l1 l2 : list A) : len (l1 ++ l2) = len l1 + len l2.
Proof. unfold len. rewrite length_app. lia. Qed.

Lemma len_cons {A : Type} (x : A) (l : list A) : len (x :: l) = 1 + len l.
Proof. unfold len. simpl List.length. lia. Qed.

(** ** Prompts *)

(** C8. For every query and context, a strategy other than [enhanced],
    [analytical] and [creative] yields exactly the prompt of the [simple]
    strategy: there is no error case. *)
Theorem unknown_strategy_is_simple (user_input context strategy : str) :
  strategy <> "enhanced" ->
  strategy <> "analytical" ->
  strategy <> "creative" ->
  get_advanced_prompt user_input context strategy
  = get_advanced_prompt user_input context "simple".
Proof.
  intros H1 H2 H3. unfold get_advanced_prompt.
  rewrite (str_eqb_neq _ _ H1), (str_eqb_neq _ _ H2), (str_eqb_neq _ _ H3).
  reflexivity.
Qed.

Lemma unknown_strategy_is_simple_witness :
  get_advanced_prompt "where is the cat" "cat facts" "bogus"
  = get_advanced_prompt "where is the cat" "cat facts" "simple".
Proof.
  apply unknown_strategy_is_simple; intro H; discriminate H.
Defined.

(** ** Scoring *)

Lemma count_loop (p : str -> bool) (words : list str) (score : Z) :
  fold_left (fun score word => if p word then score + 1 else score) words score
  = score + len (filter p words).
Proof.
  revert score; induction words as [|w words IH]; intros score; simpl.
  - unfold len; simpl; lia.
  - rewrite IH. destruct (p w); [rewrite len_cons|]; lia.
Qed.

(** The scoring loop keeps what it has and adds the lines that score. *)
Lemma scoring_loop_from (ql : str) (qw : list str) (all : list str)
    (i : Z) (lines : list str) (acc : list section) :
  fold_left
    (fun acc il =>
       let score := line_score ql qw (snd il) in
       if 0 <? score
       then acc ++ [(score, context_at all (fst il), fst il)]
       else acc)
    (enumerate_from i lines) acc
  = acc ++ flat_map
             (fun il =>
                if 0 <? line_score ql qw (snd il)
                then [(line_score ql qw (snd il), context_at all (fst il), fst il)]
                else [])
             (enumerate_from i lines).
Proof.
  revert i acc; induction lines as [|l lines IH]; intros i acc; simpl.
  - now rewrite app_nil_r.
  - rewrite IH. destruct (0 <? line_score ql qw l); simpl.
    + now rewrite <- app_assoc.
    + reflexivity.
Qed.

Lemma in_enumerate_from {A : Type} (l : list A) (i j : Z) (x : A) :
  In (j, x) (enumerate_from i l)
  <-> exists k : nat, j = i + Z.of_nat k /\ nth_error l k = Some x.
Proof.
  revert i; induction l as [|y l IH]; intros i; simpl.
  - split; [tauto | intros [[|k] [_ H]]; discriminate H].
  - rewrite IH. split.
    + intros [H | [k [Hj Hk]]].
      * inversion H; subst. exists 0%nat. split; [lia | reflexivity].
      * exists (S k). split; [lia | exact Hk].
    + intros [[|k] [Hj Hk]].
      * left. simpl in Hk. inversion Hk; subst. f_equal. lia.
      * right. exists k. split; [lia | exact Hk].
Qed.

(** C5. The score of a line is the number of query words (lowercased,
    split at whitespace) that occur in the lowercased line, plus the query
    word count when the whole lowercased query occurs in the lowercased
    line; and the scoring loop produces a section for line [i] exactly when
    that line has a positive score, so a line of score 0 produces none. *)
Theorem line_score_counts_query_words :
  (forall query line : str,
      line_score (lower query) (str_split (lower query)) line
      = spec_line_score query line)
  /\
  (forall (query : str) (lines : list str) (sec : section),
      In sec (relevant_sections (lower query) (str_split (lower query)) lines)
      <-> exists (i : nat) (line : str),
            nth_error lines i = Some line
            /\ 0 < spec_line_score query line
            /\ sec = (spec_line_score query line,
                      context_at lines (Z.of_nat i), Z.of_nat i)).
Proof.
  assert (Hscore : forall query line : str,
             line_score (lower query) (str_split (lower query)) line
             = spec_line_score query line).
  { intros query line. unfold line_score, spec_line_score. cbv zeta.
    rewrite count_loop.
    change (fun w : str => contains (lower line) w) with (contains (lower line)).
    destruct (contains (lower line) (lower query)); lia. }
  split; [exact Hscore|].
  intros query lines sec. unfold relevant_sections, enumerate.
  rewrite scoring_loop_from. simpl app. rewrite in_flat_map. split.
  - intros [[j line] [Hin Hsec]]. simpl in Hsec.
    apply in_enumerate_from in Hin. destruct Hin as [k [Hj Hk]].
    rewrite Hscore in Hsec.
    destruct (0 <? spec_line_score query line) eqn:Hpos; [|contradiction].
    destruct Hsec as [Hsec | []]. apply Z.ltb_lt in Hpos.
    exists k, line. subst j. simpl in Hsec. now subst sec.
  - intros [i [line [Hnth [Hpos Hsec]]]].
    exists (Z.of_nat i, line). split.
    + apply in_enumerate_from. exists i. split; [lia | exact Hnth].
    + simpl. rewrite Hscore. apply Z.ltb_lt in Hpos. rewrite Hpos.
      left. now subst sec.
Qed.

Example ex_score_cat :
  line_score "cat" (str_split "cat") "Cat facts" = 2
  /\ line_score "cat" (str_split "cat") "dog facts" = 0
  /\ line_score "big cat" (str_split "big cat") "a cat is big" = 2.
Proof. repeat split; reflexivity. Qed.

(** ** Post-processing *)

Lemma slice_bound_nonneg (n i : Z) : 0 <= n -> 0 <= i -> slice_bound n i = Z.min i n.
Proof.
  intros Hn Hi. unfold slice_bound.
  destruct (i <? 0) eqn:E; [apply Z.ltb_lt in E; lia | reflexivity].
Qed.

Lemma py_take_firstn {A : Type} (l : list A) (k : Z) :
  0 <= k -> py_take l k = firstn (Z.to_nat k) l.
Proof.
  intros Hk. unfold py_take, py_slice.
  rewrite !slice_bound_nonneg by (auto using len_nonneg; lia).
  pose proof (len_nonneg l) as Hl.
  replace (Z.min 0 (len l)) with 0 by lia. simpl skipn. rewrite Z.sub_0_r.
  destruct (Z.le_gt_cases k (len l)) as [H | H].
  - now rewrite Z.min_l by lia.
  - rewrite Z.min_r by lia. unfold len in *.
    rewrite Nat2Z.id, firstn_all. symmetry. apply firstn_all2. lia.
Qed.

Lemma lstrip_length (s : str) : (List.length (lstrip s) <= List.length s)%nat.
Proof.
  induction s as [|c s IH]; simpl; [lia|].
  destruct (isspace c); simpl; lia.
Qed.

Lemma rstrip_length (s : str) : (List.length (rstrip s) <= List.length s)%nat.
Proof.
  unfold rstrip. rewrite length_rev.
  etransitivity; [apply lstrip_length | rewrite length_rev; lia].
Qed.

Lemma strip_length (s : str) : (List.length (strip s) <= List.length s)%nat.
Proof.
  unfold strip. etransitivity; [apply rstrip_length | apply lstrip_length].
Qed.

(** Stripping on the left stops at the first character that is no space. *)
Lemma lstrip_app_visible (x : str) (c : ascii) (y : str) :
  isspace c = false -> lstrip (x ++ c :: y) = lstrip x ++ c :: y.
Proof.
  intros Hc. induction x as [|a x IH]; simpl.
  - now rewrite Hc.
  - destruct (isspace a); [exact IH | reflexivity].
Qed.

Lemma rstrip_app_visible (x : str) (c : ascii) :
  isspace c = false -> rstrip (x ++ [c]) = x ++ [c].
Proof.
  intros Hc. unfold rstrip. rewrite rev_app_distr. simpl.
  rewrite Hc. simpl. now rewrite rev_involutive.
Qed.

Lemma strip_with_ellipsis (x : str) : strip (x ++ "...") = lstrip x ++ "...".
Proof.
  unfold strip.
  change (x ++ "...") with (x ++ "."%char :: ".."). 
  rewrite lstrip_app_visible by reflexivity.
  change (lstrip x ++ "."%char :: "..") with (lstrip x ++ ".." ++ ["."%char]).
  rewrite app_assoc. rewrite rstrip_app_visible by reflexivity.
  now rewrite <- app_assoc.
Qed.

(** C9. [clean_for_voice] is a total function, so it returns one string for
    every input; for the empty input it returns the empty string.  The text
    left by the marker and newline replacements is cut to its first 500
    characters exactly when it is longer than 500, and in exactly that case
    the marker [...] is appended after the cut text (of which the final
    [strip] can only remove leading whitespace), so that the output has up to
    503 characters: the bound 500 is on the text kept, not on the output.
    Otherwise the output is that text stripped, with nothing appended, of at
    most 500 characters. *)
Theorem clean_for_voice_truncates (text : str) :
  clean_for_voice "" = ""
  /\
  let cleaned := strip_markup text in
  if 500 <? len cleaned
  then clean_for_voice text = lstrip (firstn 500 cleaned) ++ "..."
       /\ len (lstrip (firstn 500 cleaned)) <= 500
       /\ len (clean_for_voice text) <= 503
  else clean_for_voice text = strip cleaned
       /\ len (clean_for_voice text) <= 500.
Proof.
  split; [reflexivity|]. cbv zeta. unfold clean_for_voice.
  destruct (500 <? len (strip_markup text)) eqn:Hlen.
  - rewrite py_take_firstn by lia. change (Z.to_nat 500) with 500%nat.
    rewrite strip_with_ellipsis.
    assert (Hkept : len (lstrip (firstn 500 (strip_markup text))) <= 500).
    { unfold len.
      pose proof (lstrip_length (firstn 500 (strip_markup text))) as H1.
      pose proof (firstn_le_length 500 (strip_markup text)) as H2. lia. }
    repeat split; [exact Hkept|].
    rewrite len_app. change (len ("..." : str)) with 3. lia.
  - apply Z.ltb_ge in Hlen. split; [reflexivity|].
    pose proof (strip_length (strip_markup text)) as H. unfold len in *. lia.
Qed.

Example ex_clean_for_voice :
  clean_for_voice ("  **Hello** `world`" ++ nl ++ "again  ") = "Hello world. again".
Proof. reflexivity. Qed.

Example ex_clean_for_voice_long :
  len (clean_for_voice (repeat "a"%char 600)) = 503
  /\ clean_for_voice (repeat "a"%char 600) = repeat "a"%char 500 ++ "...".
Proof. split; vm_compute; reflexivity. Qed.

(** C9, as stated, fails: the output is not held to 500 characters.  For a
    text of 501 letters the first 500 are kept and the marker is appended
    after them, so the output has 503 characters, two more than the input. *)
Lemma truncated_output_is_longer_than_500 :
  let text : str := repeat "a"%char 501 in
  len text = 501
  /\ clean_for_voice text = repeat "a"%char 500 ++ "..."
  /\ len (clean_for_voice text) = 503
  /\ ~ (len (clean_for_voice text) <= 500).
Proof.
  cbv zeta. repeat split; try (vm_compute; reflexivity).
  vm_compute. intros H. apply H. reflexivity.
Qed.

(** ** The agent *)

Section AgentProperties.

Variable pyfloat : Type.
Variables float_0_3 float_0_9 float_1_1 : pyfloat.
Variable ECONNREFUSED : Z.
Variable invoke : OllamaLLM pyfloat -> str -> res str * OllamaLLM pyfloat.

Abbreviation agent_run := (run pyfloat invoke).
Abbreviation agent_run_advanced :=
  (run_advanced pyfloat float_0_9 float_1_1 ECONNREFUSED invoke).
Abbreviation advanced_llm := (new_advanced_llm pyfloat float_0_9 float_1_1).

(** C6. Each method on its own turns a failure of its call of the
    completion service into a string it returns; neither raises.  When the
    call [self.llm.invoke] of [run] raises [e], [run] returns its apology
    around [str(e)], whatever the service would do for [run_advanced].  When
    the call of [run_advanced] on the object it builds raises [e],
    [run_advanced] returns the fixed message about the unreachable server for
    a refused connection, and its apology around [str(e)] for every other
    error, whatever the service would do for [run].  Of the error, the
    apology of [run] holds [str(e)] and nothing else; the answer of
    [run_advanced] depends on whether the error is a refused connection and,
    when it is not, on [str(e)] only. *)
Theorem invoke_failure_becomes_apology
    (self : SimpleRAGAgent pyfloat) (user_input : str)
    (temperature : pyfloat) (max_context : Z) (prompt_strategy : str) :
  (forall e : exn,
      fst (invoke (llm self)
             (simple_prompt user_input
                (search_knowledge (knowledge_base self) user_input))) = Raise e ->
      fst (agent_run user_input self)
      = Ok ("I encountered a technical error: " ++ exn_str e
            ++ ". Please try again or contact support."))
  /\
  (forall e : exn,
      fst (invoke (advanced_llm temperature max_context)
             (get_advanced_prompt user_input
                (search_knowledge (knowledge_base self) user_input)
                prompt_strategy)) = Raise e ->
      fst (agent_run_advanced user_input temperature max_context prompt_strategy self)
      = Ok (if connection_refused ECONNREFUSED e
            then "I’m unable to connect to the local LLM server. "
                 ++ "Please ensure it’s running and accessible, then try again or contact support."
            else "I encountered a technical error in advanced mode: " ++ exn_str e
                 ++ ". Please try again or contact support.")).
Proof.
  split; intros e Hraise.
  - unfold run, try_except, bind, read, invoke_own, ret.
    destruct (invoke (llm self) _) as [r l'].
    simpl in Hraise. subst r. reflexivity.
  - unfold run_advanced, try_except, bind, read, invoke_local, ret.
    rewrite Hraise.
    destruct (connection_refused ECONNREFUSED e); reflexivity.
Qed.

(** Whatever the completion service does, neither method raises. *)
Lemma run_never_raises (self : SimpleRAGAgent pyfloat) (user_input : str) :
  exists answer : str, fst (agent_run user_input self) = Ok answer.
Proof.
  unfold run, try_except, bind, read, invoke_own, ret.
  destruct (invoke _ _) as [[r|e] l']; eexists; reflexivity.
Qed.

Lemma run_advanced_never_raises (self : SimpleRAGAgent pyfloat)
    (user_input : str) (temperature : pyfloat) (max_context : Z)
    (prompt_strategy : str) :
  exists answer : str,
    fst (agent_run_advanced user_input temperature max_context prompt_strategy self)
    = Ok answer.
Proof.
  unfold run_advanced, try_except, bind, read, invoke_local, ret.
  destruct (fst (invoke _ _)) as [r|e]; [eexists; reflexivity|].
  destruct (connection_refused ECONNREFUSED e); eexists; reflexivity.
Qed.

(** C10. A call of [run_advanced], with any temperature, context size and
    strategy, leaves the agent as it was: [llm], [fast_mode] and
    [knowledge_base] are the same after the call, the completion service
    being called on an object built for this call; so a later [run] or
    [run_advanced] behaves as if the call had not happened. *)
Theorem run_advanced_leaves_agent_unchanged
    (self : SimpleRAGAgent pyfloat) (user_input : str)
    (temperature : pyfloat) (max_context : Z) (prompt_strategy : str) :
  let self' :=
    snd (agent_run_advanced user_input temperature max_context prompt_strategy self) in
  llm self' = llm self
  /\ fast_mode self' = fast_mode self
  /\ knowledge_base self' = knowledge_base self
  /\ (forall later : str, agent_run later self' = agent_run later self)
  /\ (forall (later : str) (t : pyfloat) (c : Z) (s : str),
         agent_run_advanced later t c s self' = agent_run_advanced later t c s self).
Proof.
  assert (H : snd (agent_run_advanced user_input temperature max_context
                     prompt_strategy self) = self).
  { unfold run_advanced, try_except, bind, read, invoke_local, ret.
    destruct (fst (invoke _ _)) as [r|e]; [reflexivity|].
    destruct (connection_refused ECONNREFUSED e); reflexivity. }
  cbv zeta. rewrite H. repeat split; reflexivity.
Qed.

End AgentProperties.

Lemma invoke_failure_becomes_apology_witness :
  fst (run Q mistral_only_service "where is the cat" sample_fast_agent)
  = Ok ("I encountered a technical error: model not found"
        ++ ". Please try again or contact support.")
  /\
  fst (run_advanced Q (9 # 10)%Q (11 # 10)%Q 111 refusing_service
         "where is the cat" (3 # 10)%Q 16384 "simple" sample_agent)
  = Ok ("I’m unable to connect to the local LLM server. "
        ++ "Please ensure it’s running and accessible, then try again or contact support.")
  /\
  fst (run_advanced Q (9 # 10)%Q (11 # 10)%Q 111
         (raising_service (mk_exn ValueError None "bad response"))
         "where is the cat" (3 # 10)%Q 16384 "simple" sample_agent)
  = Ok ("I encountered a technical error in advanced mode: bad response"
        ++ ". Please try again or contact support.").
Proof.
  split; [|split].
  - apply (proj1 (invoke_failure_becomes_apology Q (9 # 10)%Q (11 # 10)%Q 111
                    mistral_only_service sample_fast_agent "where is the cat"
                    (3 # 10)%Q 16384 "simple")
             (mk_exn ValueError None "model not found")).
    reflexivity.
  - apply (proj2 (invoke_failure_becomes_apology Q (9 # 10)%Q (11 # 10)%Q 111
                    refusing_service sample_agent "where is the cat"
                    (3 # 10)%Q 16384 "simple")
             (mk_exn ConnectionRefusedError (Some 111) "[Errno 111] Connection refused")).
    reflexivity.
  - apply (proj2 (invoke_failure_becomes_apology Q (9 # 10)%Q (11 # 10)%Q 111
                    (raising_service (mk_exn ValueError None "bad response"))
                    sample_agent "where is the cat" (3 # 10)%Q 16384 "simple")
             (mk_exn ValueError None "bad response")).
    reflexivity.
Defined.

(** C6, as stated, fails on the error kind: the apology holds [str(e)], not
    the kind of [e].  A [ValueError] and a [RuntimeError] with the same text
    get the same answer from [run] and from [run_advanced], and an error
    whose text is empty leaves nothing of itself in the apology. *)
Lemma apology_holds_message_not_kind :
  let value_error := mk_exn ValueError None "bad response" in
  let runtime_error := mk_exn (OtherException "RuntimeError") None "bad response" in
  let silent_error := mk_exn (OtherException "RuntimeError") None "" in
  exn_class value_error <> exn_class runtime_error
  /\ fst (run Q (raising_service value_error) "where is the cat" sample_agent)
     = Ok ("I encountered a technical error: bad response"
           ++ ". Please try again or contact support.")
  /\ fst (run Q (raising_service runtime_error) "where is the cat" sample_agent)
     = fst (run Q (raising_service value_error) "where is the cat" sample_agent)
  /\ fst (run_advanced Q (9 # 10)%Q (11 # 10)%Q 111 (raising_service runtime_error)
            "where is the cat" (3 # 10)%Q 16384 "simple" sample_agent)
     = fst (run_advanced Q (9 # 10)%Q (11 # 10)%Q 111 (raising_service value_error)
              "where is the cat" (3 # 10)%Q 16384 "simple" sample_agent)
  /\ fst (run Q (raising_service silent_error) "where is the cat" sample_agent)
     = Ok ("I encountered a technical error: . Please try again or contact support." : str).
Proof.
  cbv zeta. repeat split; try reflexivity. discriminate.
Qed.

(** ** The chunker *)

Lemma append_loop {A B : Type} (f : A -> B) (r : list A) (acc : list B) :
  fold_left (fun chunks i => chunks ++ [f i]) r acc = acc ++ map f r.
Proof.
  revert acc; induction r as [|i r IH]; intros acc; simpl.
  - now rewrite app_nil_r.
  - rewrite IH, <- app_assoc. reflexivity.
Qed.

(** [process_document] case by case. *)
Lemma process_document_empty (self : DocumentProcessor) :
  process_document self [] = Ok [].
Proof. reflexivity. Qed.

Lemma process_document_zero_step (self : DocumentProcessor) (text : str) :
  text <> [] -> chunk_size self - overlap self = 0 ->
  process_document self text
  = Raise (mk_exn ValueError None "range() arg 3 must not be zero").
Proof.
  intros Ht Hs. destruct text as [|c text]; [contradiction|].
  unfold process_document, py_range. rewrite Hs. reflexivity.
Qed.

Lemma process_document_chunks (self : DocumentProcessor) (text : str) :
  text <> [] -> chunk_size self - overlap self <> 0 ->
  process_document self text
  = Ok (map (fun i => join " " (py_slice (str_split text) i (i + chunk_size self)))
          (range_from 0 (chunk_size self - overlap self)
             (Z.to_nat (range_len 0 (Z.max (len (str_split text) - overlap self) 0)
                          (chunk_size self - overlap self))))).
Proof.
  intros Ht Hs. destruct text as [|c text]; [contradiction|].
  unfold process_document, py_range.
  apply Z.eqb_neq in Hs. rewrite Hs. unfold res_bind.
  rewrite append_loop. reflexivity.
Qed.

(** C7, as the code has it. The chunker checks nothing about its
    configuration: it raises, with the [ValueError] of a zero [range] step,
    exactly when the text is not empty and [overlap = chunk_size]; with
    [overlap > chunk_size] it returns the empty chunk sequence for every
    text; in every other case, a non-positive [chunk_size] included, it
    returns a chunk sequence. *)
Theorem chunker_raises_only_on_zero_step (self : DocumentProcessor) (text : str) :
  ((exists e, process_document self text = Raise e)
   <-> text <> [] /\ overlap self = chunk_size self)
  /\ (chunk_size self < overlap self -> process_document self text = Ok [])
  /\ (overlap self <> chunk_size self ->
      exists chunks, process_document self text = Ok chunks).
Proof.
  assert (Hne : overlap self <> chunk_size self ->
                exists chunks, process_document self text = Ok chunks).
  { intros Hs. destruct text as [|c text]; [eexists; reflexivity|].
    rewrite process_document_chunks by (try discriminate; lia).
    eexists; reflexivity. }
  split; [split|split].
  - intros [e He]. destruct text as [|c text]; [discriminate He|].
    split; [discriminate|].
    destruct (Z.eq_dec (overlap self) (chunk_size self)) as [Heq|Hneq]; [exact Heq|].
    destruct (Hne Hneq) as [chunks Hc]. rewrite Hc in He. discriminate He.
  - intros [Ht Hs]. eexists. apply process_document_zero_step; [exact Ht | lia].
  - intros Hlt. destruct text as [|c text]; [reflexivity|].
    rewrite process_document_chunks by (try discriminate; lia).
    unfold range_len.
    replace (0 <? chunk_size self - overlap self) with false
      by (symmetry; apply Z.ltb_ge; lia).
    replace (Z.max (len (str_split (c :: text)) - overlap self) 0 <? 0) with false
      by (symmetry; apply Z.ltb_ge; lia).
    reflexivity.
  - exact Hne.
Qed.

(** C7, as stated, fails: with [overlap = 7 >= chunk_size = 5] the chunker
    returns an (empty) chunk sequence instead of failing, and with
    [chunk_size = 0] it returns three empty chunks. *)
Lemma chunker_accepts_bad_configuration :
  (overlap (mk_DocumentProcessor 5 7) >= chunk_size (mk_DocumentProcessor 5 7)
   /\ process_document (mk_DocumentProcessor 5 7) "a b c d e f g h i j" = Ok [])
  /\
  (chunk_size (mk_DocumentProcessor 0 (-1)) <= 0
   /\ process_document (mk_DocumentProcessor 0 (-1)) "a b"
      = Ok (map list_ascii_of_string [""; ""; ""])).
Proof.
  split; split; try reflexivity; simpl; lia.
Qed.

Example ex_process_document :
  process_document (mk_DocumentProcessor 3 1) "a b c d e f g"
  = Ok (strs ["a b c"; "c d e"; "e f g"])
  /\ process_document (mk_DocumentProcessor 3 1) "a b c d e f"
     = Ok (strs ["a b c"; "c d e"; "e f"])
  /\ process_document (mk_DocumentProcessor 3 0) "  a  b c d  "
     = Ok (strs ["a b c"; "d"])
  /\ process_document (mk_DocumentProcessor 3 3) "a b c d"
     = Raise (mk_exn ValueError None "range() arg 3 must not be zero")
  /\ process_document (mk_DocumentProcessor (-1) (-2)) "a b c"
     = Ok (strs ["a b"; ""; ""; ""; ""]).
Proof. repeat split; reflexivity. Qed.

(** *** Tokens *)

Lemma split_ws_from_words (s cur : str) :
  forallb (fun c => negb (isspace c)) cur = true ->
  Forall word (split_ws_from cur s).
Proof.
  revert cur; induction s as [|c s IH]; intros cur Hcur; simpl.
  - destruct cur; constructor; [split; [discriminate | exact Hcur] | constructor].
  - destruct (isspace c) eqn:Hc.
    + destruct cur as [|a cur]; [apply IH; reflexivity|].
      constructor; [split; [discriminate | exact Hcur] | apply IH; reflexivity].
    + apply IH. rewrite forallb_app, Hcur. simpl. now rewrite Hc.
Qed.

(** Every token of [s.split()] is a word. *)
Lemma str_split_words (s : str) : Forall word (str_split s).
Proof. apply split_ws_from_words. reflexivity. Qed.

Lemma split_ws_from_read (w rest cur : str) :
  forallb (fun c => negb (isspace c)) w = true ->
  split_ws_from cur (w ++ rest) = split_ws_from (cur ++ w) rest.
Proof.
  revert cur; induction w as [|c w IH]; intros cur Hw; simpl.
  - now rewrite app_nil_r.
  - simpl in Hw. apply andb_true_iff in Hw. destruct Hw as [Hc Hw].
    apply negb_true_iff in Hc. rewrite Hc, IH by exact Hw.
    now rewrite <- app_assoc.
Qed.

(** Splitting a chunk gives back the tokens it was joined from. *)
Lemma str_split_join (ws : list str) :
  Forall word ws -> str_split (join " " ws) = ws.
Proof.
  unfold str_split. induction ws as [|w ws IH]; intros Hws; [reflexivity|].
  inversion Hws as [|? ? [Hne Hw] Hrest]; subst.
  destruct ws as [|w2 ws].
  - simpl join. rewrite <- (app_nil_r w) at 1.
    rewrite split_ws_from_read by exact Hw. simpl.
    destruct w; [contradiction | reflexivity].
  - change (join " " (w :: w2 :: ws)) with (w ++ " " ++ join " " (w2 :: ws)).
    rewrite split_ws_from_read by exact Hw. simpl app at 1.
    change (" " ++ join " " (w2 :: ws)) with (" "%char :: join " " (w2 :: ws)).
    simpl split_ws_from. destruct w as [|a w]; [contradiction|].
    f_equal. apply IH. exact Hrest.
Qed.

Lemma Forall_firstn {A : Type} (P : A -> Prop) (n : nat) (l : list A) :
  Forall P l -> Forall P (firstn n l).
Proof.
  intros H. rewrite <- (firstn_skipn n l) in H. now apply Forall_app in H.
Qed.

Lemma Forall_skipn {A : Type} (P : A -> Prop) (n : nat) (l : list A) :
  Forall P l -> Forall P (skipn n l).
Proof.
  intros H. rewrite <- (firstn_skipn n l) in H. now apply Forall_app in H.
Qed.

Lemma py_slice_words (l : list str) (lo hi : Z) :
  Forall word l -> Forall word (py_slice l lo hi).
Proof. intros H. unfold py_slice. now apply Forall_firstn, Forall_skipn. Qed.

(** A slice with bounds [0 <= lo <= hi]. *)
Lemma py_slice_firstn_skipn {A : Type} (l : list A) (lo hi : Z) :
  0 <= lo <= hi ->
  py_slice l lo hi = firstn (Z.to_nat (hi - lo)) (skipn (Z.to_nat lo) l).
Proof.
  intros H. unfold py_slice. pose proof (len_nonneg l) as Hl.
  rewrite !slice_bound_nonneg by lia.
  destruct (Z.le_gt_cases (len l) lo) as [Hout | Hin].
  - rewrite (Z.min_r lo) by lia.
    rewrite (skipn_all2 l (n := Z.to_nat (len l))) by (unfold len; lia).
    rewrite (skipn_all2 l (n := Z.to_nat lo)) by (unfold len in *; lia).
    now rewrite !firstn_nil.
  - rewrite (Z.min_l lo) by lia.
    destruct (Z.le_gt_cases hi (len l)) as [Hh | Hh].
    + now rewrite Z.min_l by lia.
    + rewrite Z.min_r by lia.
      assert (Hlen : List.length (skipn (Z.to_nat lo) l) = Z.to_nat (len l - lo)).
      { rewrite length_skipn. unfold len. lia. }
      rewrite <- Hlen, firstn_all. symmetry. apply firstn_all2. lia.
Qed.

(** *** Coverage *)

(** The parts of the windows after their first [ov] tokens, put together,
    are the token list from [a + ov] on, when the last window reaches the
    end of the list. *)
Lemma covering_tails {A : Type} (l : list A) (size ov : Z) :
  0 <= ov < size ->
  forall (k : nat) (a : Z),
    0 <= a ->
    a + Z.of_nat k * (size - ov) + ov < len l ->
    len l <= a + (Z.of_nat k + 1) * (size - ov) + ov ->
    List.concat
      (map (fun i => skipn (Z.to_nat ov) (py_slice l i (i + size)))
         (range_from a (size - ov) (S k)))
    = skipn (Z.to_nat (a + ov)) l.
Proof.
  intros Hov. induction k as [|k IH]; intros a Ha Hlo Hhi.
  - simpl. rewrite app_nil_r, py_slice_firstn_skipn by lia.
    rewrite firstn_all2 by (rewrite length_skipn; unfold len in *; lia).
    rewrite skipn_skipn. f_equal. lia.
  - change (range_from a (size - ov) (S (S k)))
      with (a :: range_from (a + (size - ov)) (size - ov) (S k)).
    rewrite map_cons, concat_cons.
    rewrite IH by lia.
    rewrite py_slice_firstn_skipn by lia.
    replace (a + size - a) with size by lia.
    set (m := skipn (Z.to_nat a) l).
    replace (skipn (Z.to_nat (a + (size - ov) + ov)) l)
      with (skipn (Z.to_nat size) m)
      by (unfold m; rewrite skipn_skipn; f_equal; lia).
    replace (skipn (Z.to_nat (a + ov)) l) with (skipn (Z.to_nat ov) m)
      by (unfold m; rewrite skipn_skipn; f_equal; lia).
    assert (Hm : (Z.to_nat size <= List.length m)%nat).
    { unfold m. rewrite length_skipn. unfold len in *. nia. }
    rewrite <- (firstn_skipn (Z.to_nat size) m) at 3.
    rewrite skipn_app, length_firstn.
    replace (Z.to_nat ov - Nat.min (Z.to_nat size) (List.length m))%nat with 0%nat by lia.
    reflexivity.
Qed.

(** For a text of more than [overlap] tokens and [0 <= overlap < chunk_size]
    the chunks cover the text: their non-overlapping portions, put together,
    are its token sequence. *)
Lemma chunks_cover_long_text (self : DocumentProcessor) (text : str) :
  0 <= overlap self < chunk_size self ->
  overlap self < len (str_split text) ->
  exists chunks,
    process_document self text = Ok chunks
    /\ non_overlapping (overlap self) chunks = str_split text.
Proof.
  intros Hov Hlong.
  assert (Htext : text <> []) by (intros ->; cbn in Hlong; lia).
  rewrite process_document_chunks by (auto; lia).
  eexists; split; [reflexivity|].
  set (toks := str_split text) in *.
  set (size := chunk_size self) in *. set (ov := overlap self) in *.
  set (step := size - ov).
  assert (Hwords : Forall word toks) by apply str_split_words.
  rewrite Z.max_l by lia. unfold range_len.
  replace (0 <? step) with true by (symmetry; apply Z.ltb_lt; lia).
  replace (0 <? len toks - ov) with true by (symmetry; apply Z.ltb_lt; lia).
  rewrite Z.sub_0_r.
  set (q := (len toks - ov - 1) / step).
  assert (Hq : q * step <= len toks - ov - 1 < (q + 1) * step).
  { pose proof (Z.div_mod (len toks - ov - 1) step ltac:(lia)) as Hdm.
    pose proof (Z.mod_pos_bound (len toks - ov - 1) step ltac:(lia)) as Hmb.
    fold q in Hdm. nia. }
  assert (Hq0 : 0 <= q) by (apply Z.div_pos; lia).
  replace (Z.to_nat (q + 1)) with (S (Z.to_nat q)) by lia.
  simpl range_from. simpl map. unfold non_overlapping.
  rewrite str_split_join by (apply py_slice_words; exact Hwords).
  rewrite map_map.
  rewrite (map_ext_in _ (fun i => skipn (Z.to_nat ov) (py_slice toks i (i + size))))
    by (intros i _; rewrite str_split_join;
        [reflexivity | apply py_slice_words; exact Hwords]).
  rewrite py_slice_firstn_skipn by lia. simpl skipn.
  replace (0 + size - 0) with size by lia.
  destruct (Z.to_nat q) as [|k] eqn:Hk.
  - simpl List.concat. rewrite app_nil_r. apply firstn_all2. unfold len in *. nia.
  - pose proof (covering_tails toks size ov Hov k step) as Hcover.
    fold step in Hcover. rewrite Hcover by (unfold step in *; nia).
    replace (step + ov) with size by (unfold step; lia).
    rewrite Z.sub_0_r. apply firstn_skipn.
Qed.

Example ex_chunks_cover :
  exists chunks,
    process_document (mk_DocumentProcessor 3 1) "a b c d e f" = Ok chunks
    /\ non_overlapping 1 chunks = strs ["a"; "b"; "c"; "d"; "e"; "f"].
Proof.
  apply (chunks_cover_long_text (mk_DocumentProcessor 3 1) "a b c d e f");
    [simpl; lia | reflexivity].
Qed.

(** A text of at most [overlap] tokens gets no chunk at all. *)
Lemma short_text_gets_no_chunk (self : DocumentProcessor) (text : str) :
  0 <= overlap self < chunk_size self ->
  len (str_split text) <= overlap self ->
  process_document self text = Ok [].
Proof.
  intros Hov Hshort. destruct text as [|c text]; [reflexivity|].
  rewrite process_document_chunks by (try discriminate; lia).
  rewrite Z.max_r by lia. unfold range_len.
  replace (0 <? chunk_size self - overlap self) with true
    by (symmetry; apply Z.ltb_lt; lia).
  reflexivity.
Qed.

(** C1, at a text the chunker loses. With [chunk_size = 5] and [overlap = 3]
    the two tokens of ["a b"] end up in no chunk: the loop bound
    [max(len(tokens) - overlap, 0)] is 0, the chunk sequence is empty and
    its non-overlapping portions are not the token sequence of the text.
    The same happens under the default configuration (500 and 50) to every
    text of at most 50 tokens. *)
Theorem chunker_drops_short_text :
  0 <= overlap (mk_DocumentProcessor 5 3) < chunk_size (mk_DocumentProcessor 5 3)
  /\ str_split "a b" = map list_ascii_of_string ["a"; "b"]%string
  /\ process_document (mk_DocumentProcessor 5 3) "a b" = Ok []
  /\ non_overlapping 3 [] <> str_split "a b"
  /\ process_document default_processor "only a few words here" = Ok [].
Proof.
  repeat split; try reflexivity; try (simpl; lia).
  intros H. discriminate H.
Qed.

(** ** The assembled context *)

Lemma join_len (sep : str) (l : list str) :
  len (join sep l)
  = fold_right Z.add 0 (map len l) + len sep * Z.max 0 (len l - 1).
Proof.
  induction l as [|x l IH]; [cbn; lia|].
  destruct l as [|y l].
  - cbn. lia.
  - change (join sep (x :: y :: l)) with (x ++ sep ++ join sep (y :: l)).
    rewrite !len_app, IH.
    change (map len (x :: y :: l)) with (len x :: map len (y :: l)).
    simpl fold_right. rewrite !len_cons.
    pose proof (len_nonneg l). pose proof (len_nonneg sep). nia.
Qed.

(** C2, as the code has it. [search_knowledge] has no character budget:
    the assembled context is the first three accepted windows (all of them
    when there are fewer), each one whole, joined by the 7-character
    separator; windows are only ever left out whole from the end, by count,
    and the length of the result is the sum of the kept windows' lengths
    plus 7 for each separator, whatever that comes to. *)
Theorem assemble_keeps_whole_windows (unique_matches : list str) :
  exists kept dropped : list str,
    unique_matches = kept ++ dropped
    /\ kept = firstn 3 unique_matches
    /\ (dropped = [] \/ List.length kept = 3%nat)
    /\ assemble unique_matches = join separator kept
    /\ len (assemble unique_matches)
       = fold_right Z.add 0 (map len kept) + 7 * Z.max 0 (len kept - 1).
Proof.
  exists (firstn 3 unique_matches), (skipn 3 unique_matches).
  assert (Ha : assemble unique_matches = join separator (firstn 3 unique_matches)).
  { unfold assemble. now rewrite py_take_firstn by lia. }
  split; [symmetry; apply firstn_skipn|].
  split; [reflexivity|]. split.
  - destruct (Nat.le_gt_cases (List.length unique_matches) 3) as [H | H].
    + left. apply skipn_all2. exact H.
    + right. rewrite length_firstn. lia.
  - split; [exact Ha|]. rewrite Ha, join_len. reflexivity.
Qed.

(** C2, as stated, fails: for the single window ["cat facts"], which is also
    what [search_knowledge] returns for the knowledge base ["cat facts"] and
    the query ["cat"], and a budget of 5 characters, the assembled context
    has 9 characters. *)
Lemma assemble_ignores_budget :
  search_knowledge "cat facts" "cat" = assemble ["cat facts" : str]
  /\ assemble ["cat facts" : str] = "cat facts"
  /\ ~ (len (assemble ["cat facts" : str]) <= 5).
Proof.
  repeat split; try reflexivity. vm_compute. intros H. apply H. reflexivity.
Qed.

(** ** Selection *)

(** [sort_sections] is the sort of the source: the result is a permutation
    of the sections, descending in the score, and sections of one score keep
    their order. *)
Lemma insert_section_perm (x : section) (l : list section) :
  Permutation (x :: l) (insert_section x l).
Proof.
  induction l as [|y l IH]; simpl; [reflexivity|].
  destruct (sec_score x <? sec_score y); [|reflexivity].
  rewrite perm_swap. now apply perm_skip.
Qed.

Lemma sort_sections_perm (l : list section) : Permutation l (sort_sections l).
Proof.
  induction l as [|x l IH]; simpl; [reflexivity|].
  rewrite <- insert_section_perm. now apply perm_skip.
Qed.

Lemma insert_section_sorted (x : section) (l : list section) :
  StronglySorted (fun a b => sec_score b <= sec_score a) l ->
  StronglySorted (fun a b => sec_score b <= sec_score a) (insert_section x l).
Proof.
  induction l as [|y l IH]; intros Hs; simpl.
  - constructor; constructor.
  - inversion Hs as [|? ? Hl Hy]; subst.
    destruct (sec_score x <? sec_score y) eqn:Hxy.
    + apply Z.ltb_lt in Hxy. constructor; [apply IH; exact Hl|].
      apply (Permutation_Forall (insert_section_perm x l)).
      constructor; [lia | exact Hy].
    + apply Z.ltb_ge in Hxy. constructor; [exact Hs|].
      constructor; [exact Hxy|].
      eapply Forall_impl; [|exact Hy]. simpl. intros a Ha. lia.
Qed.

Lemma sort_sections_sorted (l : list section) :
  StronglySorted (fun a b => sec_score b <= sec_score a) (sort_sections l).
Proof.
  induction l as [|x l IH]; simpl; [constructor|].
  apply insert_section_sorted, IH.
Qed.

Lemma insert_section_stable (s : Z) (x : section) (l : list section) :
  StronglySorted (fun a b => sec_score b <= sec_score a) l ->
  filter (fun y => sec_score y =? s) (insert_section x l)
  = filter (fun y => sec_score y =? s) (x :: l).
Proof.
  induction l as [|y l IH]; intros Hs; [reflexivity|].
  inversion Hs as [|? ? Hl Hy]; subst. simpl insert_section.
  destruct (sec_score x <? sec_score y) eqn:Hxy; [|reflexivity].
  apply Z.ltb_lt in Hxy.
  change (filter (fun y0 => sec_score y0 =? s) (y :: insert_section x l))
    with (if sec_score y =? s
          then y :: filter (fun y0 => sec_score y0 =? s) (insert_section x l)
          else filter (fun y0 => sec_score y0 =? s) (insert_section x l)).
  rewrite IH by exact Hl. simpl.
  destruct (sec_score x =? s) eqn:Hx, (sec_score y =? s) eqn:Hyb; try reflexivity.
  apply Z.eqb_eq in Hx, Hyb. lia.
Qed.

Lemma sort_sections_stable (s : Z) (l : list section) :
  filter (fun y => sec_score y =? s) (sort_sections l)
  = filter (fun y => sec_score y =? s) l.
Proof.
  induction l as [|x l IH]; [reflexivity|].
  simpl sort_sections. rewrite insert_section_stable by apply sort_sections_sorted.
  simpl. now rewrite IH.
Qed.

(** The deduplication loop only appends, and it settles every candidate it
    goes through: the candidate is accepted, or it overlaps an accepted
    window. *)
Lemma dedup_loop_settles (l acc : list str) :
  let result :=
    fold_left
      (fun unique_matches match_ =>
         if is_duplicate match_ unique_matches
         then unique_matches
         else unique_matches ++ [match_])
      l acc in
  (exists added, result = acc ++ added)
  /\ forall c, In c l ->
       In c result \/ exists e, In e result /\ overlaps c e = true.
Proof.
  revert acc; induction l as [|m l IH]; intros acc; cbv zeta.
  - split; [exists []; now rewrite app_nil_r | intros c []].
  - simpl fold_left.
    destruct (is_duplicate m acc) eqn:Hdup.
    + destruct (IH acc) as [[added Hadd] Hall]. split; [exists added; exact Hadd|].
      intros c [<- | Hc]; [|apply Hall; exact Hc].
      right. unfold is_duplicate in Hdup. apply existsb_exists in Hdup.
      destruct Hdup as [e [He Ho]]. exists e. split; [|exact Ho].
      rewrite Hadd. apply in_or_app. now left.
    + destruct (IH (acc ++ [m])) as [[added Hadd] Hall]. split.
      * exists ([m] ++ added). rewrite Hadd. now rewrite <- app_assoc.
      * intros c [<- | Hc]; [|apply Hall; exact Hc].
        left. rewrite Hadd. apply in_or_app. left. apply in_or_app. right. now left.
Qed.

Example ex_search_knowledge :
  search_knowledge ("cat facts" ++ nl ++ "dog facts" ++ nl ++ "no match here") "cat"
  = "cat facts" ++ nl ++ "dog facts" ++ nl ++ "no match here"
  /\ search_knowledge ("cat facts" ++ nl ++ "dog facts") "bird"
     = "No relevant information found in knowledge base"
  /\ search_knowledge "" "cat" = "No knowledge base available".
Proof. repeat split; vm_compute; reflexivity. Qed.

(** C4, as the code has it. The deduplication loop walks the contexts of
    the first four sections of the score-sorted list, not the whole list,
    and the first three accepted windows are returned.  Whenever fewer than
    three windows are returned, these are all the accepted windows, and each
    of the (at most four) candidates was accepted and returned or rejected
    for overlapping a returned window. *)
Theorem fewer_than_three_settles_top_four (sections : list section) :
  let candidates := top_matches sections in
  let returned := py_take (deduplicate candidates) 3 in
  (List.length returned < 3)%nat ->
  candidates = map sec_context (firstn 4 (sort_sections sections))
  /\ returned = deduplicate candidates
  /\ forall c, In c candidates ->
       In c returned \/ exists e, In e returned /\ overlaps c e = true.
Proof.
  cbv zeta. intros Hfew.
  rewrite py_take_firstn in Hfew |- * by lia. change (Z.to_nat 3) with 3%nat in *.
  assert (Hall : firstn 3 (deduplicate (top_matches sections))
                 = deduplicate (top_matches sections)).
  { apply firstn_all2. rewrite length_firstn in Hfew. lia. }
  rewrite Hall. split; [|split; [reflexivity|]].
  - unfold top_matches. now rewrite py_take_firstn by lia.
  - apply (dedup_loop_settles (top_matches sections) []).
Qed.

Lemma fewer_than_three_settles_top_four_witness :
  let sections :=
    relevant_sections "cat" (strs ["cat"]) (split_on "010"%char sample_knowledge_base) in
  let candidates := top_matches sections in
  let returned := py_take (deduplicate candidates) 3 in
  (List.length returned < 3)%nat
  /\ candidates = map sec_context (firstn 4 (sort_sections sections))
  /\ returned = deduplicate candidates
  /\ forall c, In c candidates ->
       In c returned \/ exists e, In e returned /\ overlaps c e = true.
Proof.
  cbv zeta. split.
  - apply Nat.ltb_lt. vm_compute. reflexivity.
  - apply fewer_than_three_settles_top_four.
    apply Nat.ltb_lt. vm_compute. reflexivity.
Defined.

(** C4, as stated, fails. For the sample knowledge base and the query
    ["cat"] five lines score; only the first four are candidates, three of
    them are rejected as duplicates of the first, and one window is
    returned.  The section of the fifth line (line 11) is in the scored set,
    shares no token with the returned window, and is never a candidate. *)
Lemma fifth_section_is_never_considered :
  let sections :=
    relevant_sections "cat" (strs ["cat"]) (split_on "010"%char sample_knowledge_base) in
  let fifth : section := (2, nl ++ nl ++ nl ++ "dog cat", 11) in
  let first : str := "cat1" ++ nl ++ "cat2" ++ nl ++ "cat3" ++ nl ++ "cat4" in
  In fifth sections
  /\ search_knowledge sample_knowledge_base "cat" = first
  /\ py_take (deduplicate (top_matches sections)) 3 = [first]
  /\ ~ In (sec_context fifth) (top_matches sections)
  /\ overlaps (sec_context fifth) first = false.
Proof.
  cbv zeta. split; [|split; [|split; [|split]]].
  - vm_compute. do 4 right. left. reflexivity.
  - vm_compute. reflexivity.
  - vm_compute. reflexivity.
  - vm_compute. intros [H | [H | [H | [H | []]]]]; discriminate H.
  - vm_compute. reflexivity.
Qed.

(** ** The product [n * 0.7] *)

Lemma digits2_pos_bounds (p : positive) :
  2 ^ (Z.pos (digits2_pos p) - 1) <= Z.pos p < 2 ^ Z.pos (digits2_pos p).
Proof.
  induction p as [p IH | p IH |]; simpl digits2_pos.
  - rewrite Pos2Z.inj_succ.
    replace (Z.succ (Z.pos (digits2_pos p)) - 1) with (Z.succ (Z.pos (digits2_pos p) - 1)) by lia.
    rewrite !Z.pow_succ_r by lia. lia.
  - rewrite Pos2Z.inj_succ.
    replace (Z.succ (Z.pos (digits2_pos p)) - 1) with (Z.succ (Z.pos (digits2_pos p) - 1)) by lia.
    rewrite !Z.pow_succ_r by lia. lia.
  - simpl. lia.
Qed.

(** The number of binary digits is determined by the two powers of 2
    around the number. *)
Lemma digits2_pos_unique (p : positive) (d : Z) :
  2 ^ (d - 1) <= Z.pos p < 2 ^ d -> Z.pos (digits2_pos p) = d.
Proof.
  intros [Hlo Hhi]. pose proof (digits2_pos_bounds p) as [Blo Bhi].
  assert (Hd : 0 < d).
  { destruct (Z.lt_ge_cases 0 d) as [H|H]; [exact H|].
    destruct (Z.eq_dec d 0) as [->|Hne]; [simpl in Hhi; lia|].
    rewrite Z.pow_neg_r in Hhi by lia. lia. }
  destruct (Z.lt_trichotomy (Z.pos (digits2_pos p)) d) as [H | [H | H]]; [|exact H|].
  - assert (2 ^ Z.pos (digits2_pos p) <= 2 ^ (d - 1)) by (apply Z.pow_le_mono_r; lia). lia.
  - assert (2 ^ d <= 2 ^ (Z.pos (digits2_pos p) - 1)) by (apply Z.pow_le_mono_r; lia). lia.
Qed.

Lemma iter_pos_nat {A : Type} (f : A -> A) (p : positive) (x : A) :
  iter_pos f p x = Nat.iter (Pos.to_nat p) f x.
Proof.
  revert x; induction p as [p IH | p IH |]; intros x; simpl iter_pos.
  - rewrite !IH, Pos2Nat.inj_xI.
    replace (2 * Pos.to_nat p)%nat with (Pos.to_nat p + Pos.to_nat p)%nat by lia.
    now rewrite Nat.iter_succ_r, Nat.iter_add.
  - rewrite !IH, Pos2Nat.inj_xO. 
    replace (2 * Pos.to_nat p)%nat with (Pos.to_nat p + Pos.to_nat p)%nat by lia.
    now rewrite Nat.iter_add.
  - reflexivity.
Qed.

(** One step of the right shift on a non-negative mantissa. *)
Lemma shr_1_spec (m : Z) (r s : bool) :
  0 <= m ->
  shr_1 {| shr_m := m; shr_r := r; shr_s := s |}
  = {| shr_m := m / 2; shr_r := Z.odd m; shr_s := r || s |}.
Proof.
  intros Hm. destruct m as [|p|p]; [reflexivity | | lia].
  destruct p as [p|p|]; unfold shr_1.
  - replace (Z.pos p~1 / 2) with (Z.pos p); [reflexivity|].
    rewrite Pos2Z.inj_xI. apply Z.div_unique with 1; lia.
  - replace (Z.pos p~0 / 2) with (Z.pos p); [reflexivity|].
    rewrite Pos2Z.inj_xO. apply Z.div_unique with 0; lia.
  - reflexivity.
Qed.

(** After [k + 1] steps the record holds the quotient by [2 ^ (k + 1)];
    the round bit and the sticky bit describe the remainder. *)
Lemma shr_iter_spec (P : Z) (k : nat) :
  0 <= P ->
  exists (q t : Z) (r s : bool),
    Nat.iter (S k) shr_1 {| shr_m := P; shr_r := false; shr_s := false |}
    = {| shr_m := q; shr_r := r; shr_s := s |}
    /\ 0 <= q
    /\ 0 <= t < 2 ^ Z.of_nat k
    /\ P = q * 2 ^ (Z.of_nat k + 1) + (if r then 2 ^ Z.of_nat k else 0) + t
    /\ (s = true <-> t <> 0).
Proof.
  intros HP. induction k as [|k IH].
  - exists (P / 2), 0, (Z.odd P), false. unfold Nat.iter. cbn [nat_rect].
    rewrite shr_1_spec by exact HP. simpl orb.
    split; [reflexivity|]. split; [apply Z.div_pos; lia|].
    split; [simpl; lia|]. split; [|split; [discriminate | lia]].
    pose proof (Zdiv2_odd_eqn P) as H. rewrite Z.div2_div in H.
    change (2 ^ (Z.of_nat 0 + 1)) with 2. change (2 ^ Z.of_nat 0) with 1.
    destruct (Z.odd P); lia.
  - destruct IH as [q [t [r [s [Hit [Hq [Ht [HP' Hs]]]]]]]].
    exists (q / 2), ((if r then 2 ^ Z.of_nat k else 0) + t), (Z.odd q), (r || s).
    rewrite Nat.iter_succ, Hit, shr_1_spec by exact Hq.
    split; [reflexivity|]. split; [apply Z.div_pos; lia|].
    assert (Hpow : 2 ^ Z.of_nat (S k) = 2 * 2 ^ Z.of_nat k).
    { rewrite Nat2Z.inj_succ, Z.pow_succ_r by lia. reflexivity. }
    assert (Hpow1 : 2 ^ (Z.of_nat (S k) + 1) = 2 * 2 ^ (Z.of_nat k + 1)).
    { rewrite Nat2Z.inj_succ. replace (Z.succ (Z.of_nat k) + 1) with (Z.succ (Z.of_nat k + 1)) by lia.
      rewrite Z.pow_succ_r by lia. reflexivity. }
    assert (Hpow2 : 2 ^ (Z.of_nat k + 1) = 2 * 2 ^ Z.of_nat k).
    { rewrite Z.add_1_r, Z.pow_succ_r by lia. reflexivity. }
    assert (Hpos : 0 < 2 ^ Z.of_nat k) by (apply Z.pow_pos_nonneg; lia).
    split; [destruct r; lia|]. split.
    + pose proof (Zdiv2_odd_eqn q) as H. rewrite Z.div2_div in H.
      rewrite Hpow1, Hpow, Hpow2. destruct (Z.odd q); destruct r; nia.
    + rewrite orb_true_iff. destruct r; split; intros H; try lia; auto.
      * destruct H as [H|H]; [discriminate | apply Hs in H; lia].
      * right. apply Hs. lia.
Qed.

(** Shifting right by [p] places and rounding to nearest even gives a
    mantissa within half a unit of the exact quotient. *)
Lemma round_after_shift (P : Z) (p : positive) :
  0 <= P ->
  let mrs := iter_pos shr_1 p {| shr_m := P; shr_r := false; shr_s := false |} in
  let q := round_nearest_even (shr_m mrs) (loc_of_shr_record mrs) in
  0 <= q /\ 2 * Z.abs (q * 2 ^ Z.pos p - P) <= 2 ^ Z.pos p.
Proof.
  intros HP. cbv zeta. rewrite iter_pos_nat.
  destruct (Pos2Nat.is_succ p) as [k Hk]. rewrite Hk.
  destruct (shr_iter_spec P k HP) as [q [t [r [s [Hit [Hq [Ht [HP' Hs]]]]]]]].
  rewrite Hit. simpl shr_m.
  assert (Hp : Z.pos p = Z.of_nat k + 1) by lia.
  rewrite Hp.
  assert (Hpow : 2 ^ (Z.of_nat k + 1) = 2 * 2 ^ Z.of_nat k).
  { rewrite Z.add_1_r, Z.pow_succ_r by lia. reflexivity. }
  rewrite Hpow in *.
  set (h := 2 ^ Z.of_nat k) in *.
  destruct r, s; simpl loc_of_shr_record; unfold round_nearest_even.
  - assert (t <> 0) by (apply Hs; reflexivity). split; [lia | nia].
  - assert (t = 0) by (destruct (Z.eq_dec t 0) as [E|E]; [exact E | apply Hs in E; discriminate]).
    destruct (Z.even q); split; try lia; nia.
  - assert (t <> 0) by (apply Hs; reflexivity). split; [lia | nia].
  - assert (t = 0) by (destruct (Z.eq_dec t 0) as [E|E]; [exact E | apply Hs in E; discriminate]).
    split; [lia | nia].
Qed.

Lemma fexp_53 (x : Z) : fexp 53 1024 x = Z.max (x - 53) (-1074).
Proof. reflexivity. Qed.

(** A mantissa of 53 digits with an exponent in range is left as it is. *)
Lemma binary_round_aux_canonical (s : bool) (m : positive) (e : Z) :
  Z.pos (digits2_pos m) = 53 -> -1074 <= e <= 971 ->
  binary_round_aux 53 1024 s (Z.pos m) e loc_Exact = S754_finite s m e.
Proof.
  intros Hd He. unfold binary_round_aux.
  assert (Hshift : forall l, shr_fexp 53 1024 (Z.pos m) e l
                             = (shr_record_of_loc (Z.pos m) l, e)).
  { intros l. unfold shr_fexp. simpl Zdigits2. rewrite Hd, fexp_53.
    replace (Z.max (53 + e - 53) (-1074) - e) with 0 by lia. reflexivity. }
  rewrite Hshift. simpl shr_record_of_loc. simpl loc_of_shr_record.
  simpl shr_m. simpl round_nearest_even. rewrite Hshift. simpl shr_m.
  replace (e <=? 1024 - 53) with true by (symmetry; apply Z.leb_le; lia).
  reflexivity.
Qed.

(** Rounding a longer mantissa: the result is finite, its exponent is the
    one that leaves 53 digits (or one more, when rounding carries), and it
    is within half a unit in the last place of the exact value. *)
Lemma binary_round_aux_long (P : positive) (e : Z) :
  let D := Z.pos (digits2_pos P) in
  53 < D -> -1074 <= D + e - 53 <= 970 ->
  exists (m : positive) (e' : Z),
    binary_round_aux 53 1024 false (Z.pos P) e loc_Exact = S754_finite false m e'
    /\ D - 53 <= e' - e <= D - 52
    /\ 2 * Z.abs (Z.pos m * 2 ^ (e' - e) - Z.pos P) <= 2 ^ (D - 53).
Proof.
  intros D HD He. unfold binary_round_aux.
  unfold shr_fexp at 1. simpl Zdigits2. fold D. rewrite fexp_53.
  replace (Z.max (D + e - 53) (-1074) - e) with (D - 53) by lia.
  destruct (D - 53) as [|sh|sh] eqn:Hsh; try lia.
  unfold shr. simpl shr_record_of_loc.
  pose proof (round_after_shift (Z.pos P) sh ltac:(lia)) as Hround.
  cbv zeta in Hround.
  set (mrs := iter_pos shr_1 sh {| shr_m := Z.pos P; shr_r := false; shr_s := false |}) in *.
  set (q := round_nearest_even (shr_m mrs) (loc_of_shr_record mrs)) in *.
  destruct Hround as [Hq0 Hq].
  pose proof (digits2_pos_bounds P) as [Plo Phi]. fold D in Plo, Phi.
  assert (HDsh : D = Z.pos sh + 53) by lia.
  assert (Hpow_lo : 2 ^ (D - 1) = 2 ^ 52 * 2 ^ Z.pos sh).
  { replace (D - 1) with (52 + Z.pos sh) by lia. rewrite Z.pow_add_r by lia. reflexivity. }
  assert (Hpow_hi : 2 ^ D = 2 ^ 53 * 2 ^ Z.pos sh).
  { replace D with (53 + Z.pos sh) at 1 by lia. rewrite Z.pow_add_r by lia. reflexivity. }
  assert (Hsh_pos : 2 <= 2 ^ Z.pos sh).
  { change 2 with (2 ^ 1) at 1. apply Z.pow_le_mono_r; lia. }
  assert (Hq_lo : 2 ^ 52 <= q) by nia.
  assert (Hq_hi : q <= 2 ^ 53) by nia.
  destruct q as [|qp|qp] eqn:Hqp; try lia.
  destruct (Z.eq_dec (Z.pos qp) (2 ^ 53)) as [Hcarry | Hnocarry].
  - (* the rounded mantissa is 2^53: one more shift *)
    assert (Hqd : Z.pos (digits2_pos qp) = 54)
      by (apply digits2_pos_unique; rewrite Hcarry; simpl; lia).
    unfold shr_fexp. simpl Zdigits2. rewrite Hqd, fexp_53.
    replace (Z.max (54 + (e + Z.pos sh) - 53) (-1074) - (e + Z.pos sh)) with 1 by lia.
    unfold shr. simpl shr_record_of_loc. cbn [iter_pos].
    rewrite shr_1_spec by lia. simpl shr_m. rewrite Hcarry.
    change (2 ^ 53 / 2) with (Z.pos (2 ^ 52)%positive).
    replace (e + Z.pos sh + 1 <=? 1024 - 53) with true by (symmetry; apply Z.leb_le; lia).
    exists (2 ^ 52)%positive, (e + Z.pos sh + 1).
    split; [reflexivity|]. split; [lia|].
    replace (e + Z.pos sh + 1 - e) with (1 + Z.pos sh) by lia.
    rewrite Z.pow_add_r by lia. rewrite Hcarry in Hq.
    set (X := 2 ^ Z.pos sh) in *.
    change (2 ^ 53) with 9007199254740992 in Hq.
    change (Z.pos (2 ^ 52)%positive) with 4503599627370496.
    change (2 ^ 1) with 2. lia.
  - assert (Hqd : Z.pos (digits2_pos qp) = 53)
      by (apply digits2_pos_unique; simpl; simpl in Hq_lo, Hq_hi, Hnocarry; lia).
    unfold shr_fexp. simpl Zdigits2. rewrite Hqd, fexp_53.
    replace (Z.max (53 + (e + Z.pos sh) - 53) (-1074) - (e + Z.pos sh)) with 0 by lia.
    unfold shr. simpl shr_record_of_loc. simpl shr_m.
    replace (e + Z.pos sh <=? 1024 - 53) with true by (symmetry; apply Z.leb_le; lia).
    exists qp, (e + Z.pos sh).
    split; [reflexivity|]. split; [lia|].
    replace (e + Z.pos sh - e) with (Z.pos sh) by lia. exact Hq.
Qed.

Lemma pos_iter_xO (m k : positive) :
  Z.pos (Pos.iter xO m k) = Z.pos m * 2 ^ Z.pos k.
Proof.
  apply (Pos.iter_ind positive xO m (fun k x => Z.pos x = Z.pos m * 2 ^ Z.pos k)).
  - rewrite Pos2Z.inj_xO. change (2 ^ 1) with 2. lia.
  - intros p x Hx. rewrite Pos2Z.inj_xO, Hx, Pos2Z.inj_succ, Z.pow_succ_r by lia. lia.
Qed.

(** [float(n)] is exact below [2 ^ 53]: a 53-digit mantissa [n * 2 ^ a]
    with the exponent [- a]. *)
Lemma float_of_int_exact (n : Z) :
  0 < n < 2 ^ 53 ->
  exists (mx : positive) (a : Z),
    float_of_int n = S754_finite false mx (- a)
    /\ 0 <= a <= 52
    /\ Z.pos mx = n * 2 ^ a
    /\ Z.pos (digits2_pos mx) = 53.
Proof.
  intros [Hn0 Hn]. destruct n as [|np|np]; try lia.
  unfold float_of_int, binary_normalize, binary_round.
  pose proof (digits2_pos_bounds np) as [Hlo Hhi].
  set (d := Z.pos (digits2_pos np)) in *.
  assert (Hd : 1 <= d <= 53).
  { split; [unfold d; lia|].
    destruct (Z.le_gt_cases d 53) as [H|H]; [exact H|].
    assert (2 ^ 53 <= 2 ^ (d - 1)) by (apply Z.pow_le_mono_r; lia). lia. }
  rewrite fexp_53. replace (Z.max (d + 0 - 53) (-1074)) with (d - 53) by lia.
  unfold shl_align. rewrite Z.sub_0_r.
  destruct (d - 53) as [|k|k] eqn:Hk; try lia.
  - assert (Hd53 : Z.pos (digits2_pos np) = 53) by (fold d; lia).
    rewrite binary_round_aux_canonical by (auto; lia).
    exists np, 0. split; [reflexivity|]. split; [lia|]. split; [simpl; lia | exact Hd53].
  - assert (Hm : Z.pos (Pos.iter xO np k) = Z.pos np * 2 ^ Z.pos k) by apply pos_iter_xO.
    assert (Hpk : 2 ^ 52 = 2 ^ (d - 1) * 2 ^ Z.pos k).
    { rewrite <- Z.pow_add_r by lia. f_equal. lia. }
    assert (Hpk' : 2 ^ 53 = 2 ^ d * 2 ^ Z.pos k).
    { rewrite <- Z.pow_add_r by lia. f_equal. lia. }
    assert (Hk0 : 0 < 2 ^ Z.pos k) by (apply Z.pow_pos_nonneg; lia).
    assert (Hd53 : Z.pos (digits2_pos (Pos.iter xO np k)) = 53).
    { apply digits2_pos_unique. rewrite Hm. change (53 - 1) with 52.
      rewrite Hpk, Hpk'. nia. }
    rewrite binary_round_aux_canonical by (auto; lia).
    exists (Pos.iter xO np k), (Z.pos k).
    split; [reflexivity|]. split; [lia|]. split; [exact Hm | exact Hd53].
Qed.

(** [n * 0.7] is finite, has a negative exponent, and is within a relative
    error of [2 ^ -53] of the exact product of [n] and the double 0.7. *)
Lemma times_0_7_spec (n : Z) :
  0 < n < 2 ^ 49 ->
  exists (m : positive) (E : Z),
    times_0_7 n = S754_finite false m (- E)
    /\ 0 < E <= 53
    /\ 2 ^ 53 * Z.abs (Z.pos m * 2 ^ (53 - E) - n * 6305039478318694)
       <= n * 6305039478318694.
Proof.
  intros [Hn0 Hn].
  destruct (float_of_int_exact n) as [mx [a [Hfl [Ha [Hmx Hmxd]]]]];
    [change (2 ^ 53) with (2 ^ 49 * 16); split; lia|].
  pose proof (digits2_pos_bounds mx) as [Mlo Mhi]. rewrite Hmxd in Mlo, Mhi.
  change (53 - 1) with 52 in Mlo.
  assert (Ha4 : 4 <= a).
  { destruct (Z.le_gt_cases 4 a) as [H|H]; [exact H|].
    assert (2 ^ a <= 2 ^ 3) by (apply Z.pow_le_mono_r; lia).
    change (2 ^ 3) with 8 in *. change (2 ^ 52) with (2 ^ 49 * 8) in Mlo. nia. }
  unfold times_0_7. rewrite Hfl. unfold SFmul, float_0_7. simpl xorb.
  set (C := 6305039478318694%positive).
  set (P := (mx * C)%positive).
  assert (HP : Z.pos P = Z.pos mx * Z.pos C) by reflexivity.
  assert (HPlo : 2 ^ 104 <= Z.pos P).
  { rewrite HP. change (2 ^ 104) with (2 ^ 52 * 2 ^ 52).
    apply Z.mul_le_mono_nonneg; [simpl; lia | exact Mlo | simpl; lia | unfold C; simpl; lia]. }
  assert (HPhi : Z.pos P < 2 ^ 106).
  { rewrite HP. change (2 ^ 106) with (2 ^ 53 * 2 ^ 53).
    apply Z.mul_lt_mono_nonneg; [lia | exact Mhi | lia | unfold C; simpl; lia]. }
  assert (HD : Z.pos (digits2_pos P) = 105 \/ Z.pos (digits2_pos P) = 106).
  { destruct (Z.lt_ge_cases (Z.pos P) (2 ^ 105)) as [H|H].
    - left. apply digits2_pos_unique. change (105 - 1) with 104. lia.
    - right. apply digits2_pos_unique. change (106 - 1) with 105. lia. }
  destruct (binary_round_aux_long P (- a + -53)) as [m [e' [Hround [He' Hbound]]]];
    [lia | lia |].
  pose proof (digits2_pos_bounds P) as [Dlo _].
  set (D := Z.pos (digits2_pos P)) in *.
  rewrite Hround.
  set (j := e' - (- a + -53)) in *.
  exists m, (a + 53 - j). split; [f_equal; unfold j; lia|]. split; [lia|].
  replace (53 - (a + 53 - j)) with (j - a) by lia.
  assert (Hj : 2 ^ j = 2 ^ (j - a) * 2 ^ a).
  { rewrite <- Z.pow_add_r by lia. f_equal. lia. }
  assert (HDp : 2 ^ (D - 1) = 2 ^ (D - 53) * 2 ^ 52).
  { rewrite <- Z.pow_add_r by lia. f_equal. lia. }
  rewrite Hj in Hbound. rewrite HDp in Dlo. rewrite HP, Hmx in Hbound, Dlo.
  change (Z.pos C) with 6305039478318694 in *.
  assert (HA : 0 < 2 ^ a) by (apply Z.pow_pos_nonneg; lia).
  set (A := 2 ^ a) in *. set (G := 2 ^ (D - 53)) in *.
  set (X := Z.pos m * 2 ^ (j - a)) in *.
  change (2 ^ 52) with 4503599627370496 in Dlo.
  change (2 ^ 53) with 9007199254740992.
  assert (Hfactor : Z.pos m * (2 ^ (j - a) * A) - n * A * 6305039478318694
                    = (X - n * 6305039478318694) * A) by (unfold X; ring).
  rewrite Hfactor, Z.abs_mul, (Z.abs_eq A) in Hbound by lia.
  nia.
Qed.

(** The overlap test against the exact threshold of 70%: what shares more
    than 70% of [n] passes the test, what shares less does not. *)
Lemma int_gt_times_0_7 (n k : Z) :
  0 <= n < 2 ^ 49 -> 0 <= k ->
  (7 * n < 10 * k -> int_gt_float k (times_0_7 n) = true)
  /\ (10 * k < 7 * n -> int_gt_float k (times_0_7 n) = false).
Proof.
  intros [Hn0 Hn] Hk.
  destruct (Z.eq_dec n 0) as [-> | Hnz].
  - change (times_0_7 0) with (S754_zero false). simpl int_gt_float.
    split; intros H; [apply Z.ltb_lt | apply Z.ltb_ge]; lia.
  - destruct (times_0_7_spec n) as [m [E [Hval [HE Hbound]]]]; [lia|].
    rewrite Hval. unfold int_gt_float.
    replace (0 <=? - E) with false by (symmetry; apply Z.leb_gt; lia).
    rewrite Z.opp_involutive.
    assert (Hpow : 2 ^ 53 = 2 ^ E * 2 ^ (53 - E)).
    { rewrite <- Z.pow_add_r by lia. f_equal. lia. }
    assert (HpE : 0 < 2 ^ (53 - E)) by (apply Z.pow_pos_nonneg; lia).
    assert (HpE' : 0 < 2 ^ E) by (apply Z.pow_pos_nonneg; lia).
    set (X := Z.pos m * 2 ^ (53 - E)) in *.
    split; intros H.
    + apply Z.ltb_lt.
      assert (HX : X < k * 2 ^ 53)
        by (change (2 ^ 53) with 9007199254740992 in *; change (2 ^ 49) with 562949953421312 in *; lia).
      rewrite Hpow in HX. unfold X in HX. nia.
    + apply Z.ltb_ge.
      assert (HX : k * 2 ^ 53 <= X)
        by (change (2 ^ 53) with 9007199254740992 in *; change (2 ^ 49) with 562949953421312 in *; lia).
      rewrite Hpow in HX. unfold X in HX. nia.
Qed.

Example ex_times_0_7 :
  times_0_7 10 = S754_finite false 7881299347898368 (-50)
  /\ int_gt_float 7 (times_0_7 10) = false
  /\ times_0_7 90 = S754_finite false 8866461766385663 (-47)
  /\ int_gt_float 63 (times_0_7 90) = true.
Proof. repeat split; vm_compute; reflexivity. Qed.

(** ** Deduplication *)

Lemma deduplicate_snoc (candidates : list str) (match_ : str) :
  deduplicate (candidates ++ [match_])
  = if is_duplicate match_ (deduplicate candidates)
    then deduplicate candidates
    else deduplicate candidates ++ [match_].
Proof. unfold deduplicate. rewrite fold_left_app. reflexivity. Qed.

Lemma shared_count_nonneg (a b : list str) : 0 <= shared_count a b.
Proof. apply len_nonneg. Qed.

(** C3, as the code has it. In the deduplication loop a candidate is
    appended to the accepted windows exactly when no accepted window passes
    the test [shared > n * 0.7], where [shared] is the number of distinct
    tokens the candidate has in common with that window, [n] is the number
    of tokens of the candidate counted with repetitions, and the product is
    the double-precision one.  So a candidate that shares more than 70% of
    [n] with some accepted window is rejected, and a candidate that shares
    less than 70% of [n] with every accepted window is accepted. *)
Theorem candidate_rejected_above_seventy_percent
    (unique_matches : list str) (match_ : str) :
  let n := len (str_split match_) in
  let shared existing := shared_count (str_split match_) (str_split existing) in
  n < 2 ^ 49 ->
  (forall candidates,
      deduplicate (candidates ++ [match_])
      = if is_duplicate match_ (deduplicate candidates)
        then deduplicate candidates
        else deduplicate candidates ++ [match_])
  /\ (is_duplicate match_ unique_matches = false
      <-> forall existing, In existing unique_matches ->
            int_gt_float (shared existing) (times_0_7 n) = false)
  /\ (forall existing, In existing unique_matches ->
        7 * n < 10 * shared existing ->
        is_duplicate match_ unique_matches = true)
  /\ ((forall existing, In existing unique_matches ->
         10 * shared existing < 7 * n) ->
      is_duplicate match_ unique_matches = false).
Proof.
  intros n shared Hn.
  assert (Hiff : is_duplicate match_ unique_matches = false
                 <-> forall existing, In existing unique_matches ->
                       int_gt_float (shared existing) (times_0_7 n) = false).
  { unfold is_duplicate. split.
    - intros Hno existing Hin.
      destruct (int_gt_float (shared existing) (times_0_7 n)) eqn:Ho; [|reflexivity].
      assert (existsb (overlaps match_) unique_matches = true)
        by (apply existsb_exists; exists existing; split; [exact Hin | exact Ho]).
      congruence.
    - intros Hall.
      destruct (existsb (overlaps match_) unique_matches) eqn:Hex; [|reflexivity].
      apply existsb_exists in Hex. destruct Hex as [existing [Hin Ho]].
      unfold overlaps in Ho. fold n in Ho. fold (shared existing) in Ho.
      rewrite (Hall existing Hin) in Ho. discriminate Ho. }
  assert (Hrange : 0 <= n < 2 ^ 49) by (split; [apply len_nonneg | exact Hn]).
  split; [intros candidates; apply deduplicate_snoc|].
  split; [exact Hiff|]. split.
  - intros existing Hin Habove.
    destruct (is_duplicate match_ unique_matches) eqn:Hdup; [reflexivity|].
    pose proof (proj1 Hiff eq_refl existing Hin) as Hno.
    destruct (int_gt_times_0_7 n (shared existing) Hrange
                (shared_count_nonneg _ _)) as [Hyes _].
    rewrite (Hyes Habove) in Hno. discriminate Hno.
  - intros Hbelow. apply Hiff. intros existing Hin.
    destruct (int_gt_times_0_7 n (shared existing) Hrange
                (shared_count_nonneg _ _)) as [_ Hnot].
    apply Hnot, Hbelow, Hin.
Qed.

Lemma candidate_rejected_above_seventy_percent_witness :
  is_duplicate "a b c d e f g h x y" (strs ["a b c d e f g h i j"]) = true
  /\ is_duplicate "a b c d e f u x y z" (strs ["a b c d e f g h i j"]) = false.
Proof.
  pose proof (candidate_rejected_above_seventy_percent
                (strs ["a b c d e f g h i j"]) "a b c d e f g h x y"
                ltac:(reflexivity)) as [_ [_ [Habove _]]].
  pose proof (candidate_rejected_above_seventy_percent
                (strs ["a b c d e f g h i j"]) "a b c d e f u x y z"
                ltac:(reflexivity)) as [_ [_ [_ Hbelow]]].
  split.
  - apply (Habove ("a b c d e f g h i j" : str)); [left; reflexivity | reflexivity].
  - apply Hbelow. intros existing [<- | []]. reflexivity.
Defined.

(** C3, as stated, fails at exactly 70%. The candidate has 10 tokens and 7
    of them occur in the accepted window; [10 * 0.7] is [7.0], the test
    [7 > 7.0] is false, and the candidate is accepted, although 70% of its
    tokens already appear in an accepted window. *)
Lemma seventy_percent_is_accepted :
  let accepted : str := "a b c d e f g h i j" in
  let candidate : str := "a b c d e f g x y z" in
  len (str_split candidate) = 10
  /\ shared_count (str_split candidate) (str_split accepted) = 7
  /\ 10 * shared_count (str_split candidate) (str_split accepted)
     >= 7 * len (str_split candidate)
  /\ is_duplicate candidate [accepted] = false
  /\ deduplicate [accepted; candidate] = [accepted; candidate].
Proof.
  cbv zeta. repeat split; try (vm_compute; reflexivity).
  vm_compute. intros H. discriminate H.
Qed.

(* ================================================================== *)
(** * Part III: further properties                                     *)
(* ================================================================== *)

(** ** More on the chunker *)

Lemma in_range_from (a step : Z) (k : nat) (i : Z) :
  In i (range_from a step k)
  <-> exists j : nat, (j < k)%nat /\ i = a + Z.of_nat j * step.
Proof.
  revert a; induction k as [|k IH]; intros a; simpl.
  - split; [tauto | intros [j [Hj _]]; lia].
  - rewrite IH. split.
    + intros [<- | [j [Hj ->]]].
      * exists 0%nat. split; lia.
      * exists (S j). split; [lia | lia].
    + intros [[|j] [Hj ->]].
      * left. lia.
      * right. exists j. split; [lia | lia].
Qed.

(** The start indices of the loop of [process_document], for a positive
    step: they are non-negative and leave more than [overlap] tokens. *)
Lemma chunk_starts (n ov step i : Z) :
  0 < step ->
  In i (range_from 0 step (Z.to_nat (range_len 0 (Z.max (n - ov) 0) step))) ->
  0 <= i < n - ov.
Proof.
  intros Hstep Hin. apply in_range_from in Hin. destruct Hin as [j [Hj ->]].
  unfold range_len in Hj.
  replace (0 <? step) with true in Hj by (symmetry; apply Z.ltb_lt; lia).
  destruct (0 <? Z.max (n - ov) 0) eqn:Hpos; [|simpl in Hj; lia].
  apply Z.ltb_lt in Hpos. rewrite Z.max_l in * by lia. rewrite Z.sub_0_r in Hj.
  set (q := (n - ov - 1) / step) in *.
  assert (Hq : q * step <= n - ov - 1).
  { pose proof (Z.div_mod (n - ov - 1) step ltac:(lia)) as Hdm.
    pose proof (Z.mod_pos_bound (n - ov - 1) step ltac:(lia)) as Hmb.
    fold q in Hdm. nia. }
  assert (Hq0 : 0 <= q) by (apply Z.div_pos; lia).
  assert (Z.of_nat j <= q) by lia. nia.
Qed.

Lemma py_slice_len {A : Type} (l : list A) (lo hi : Z) :
  0 <= lo <= hi ->
  len (py_slice l lo hi) = Z.max 0 (Z.min hi (len l) - lo).
Proof.
  intros H. rewrite py_slice_firstn_skipn by exact H. unfold len.
  rewrite length_firstn, length_skipn. lia.
Qed.

(** X2. For [0 <= overlap < chunk_size], [process_document] returns chunks
    for every text, and every chunk has more than [overlap] and at most
    [chunk_size] tokens. *)
Theorem chunks_have_bounded_size (self : DocumentProcessor) (text : str) :
  0 <= overlap self < chunk_size self ->
  exists chunks,
    process_document self text = Ok chunks
    /\ Forall (fun c => overlap self < len (str_split c) <= chunk_size self) chunks.
Proof.
  intros Hov. destruct text as [|c0 text]; [exists []; split; [reflexivity | constructor]|].
  rewrite process_document_chunks by (try discriminate; lia).
  eexists; split; [reflexivity|].
  apply Forall_map, Forall_forall. intros i Hi.
  apply chunk_starts in Hi; [|lia].
  rewrite str_split_join by (apply py_slice_words, str_split_words).
  rewrite py_slice_len by lia. lia.
Qed.

Lemma chunks_have_bounded_size_witness :
  exists chunks,
    process_document (mk_DocumentProcessor 3 1) "a b c d e f" = Ok chunks
    /\ Forall (fun c => 1 < len (str_split c) <= 3) chunks.
Proof.
  apply (chunks_have_bounded_size (mk_DocumentProcessor 3 1) "a b c d e f").
  simpl. lia.
Defined.

(** X1. For [0 <= overlap < chunk_size] and a text of more than [overlap]
    tokens, [process_document] returns at least one chunk, the first chunk
    holds the first [chunk_size] tokens of the text, and the non-overlapping
    portions of the chunks, put together, are the token sequence of the
    text. *)
Theorem long_text_is_covered (self : DocumentProcessor) (text : str) :
  0 <= overlap self < chunk_size self ->
  overlap self < len (str_split text) ->
  exists first rest,
    process_document self text = Ok (first :: rest)
    /\ str_split first = py_take (str_split text) (chunk_size self)
    /\ non_overlapping (overlap self) (first :: rest) = str_split text.
Proof.
  intros Hov Hlong.
  destruct (chunks_cover_long_text self text Hov Hlong) as [chunks [Hok Hcover]].
  assert (Htext : text <> []) by (intros ->; cbn in Hlong; lia).
  pose proof Hok as Hshape.
  rewrite process_document_chunks in Hshape by (auto; lia).
  unfold range_len in Hshape. rewrite Z.max_l in Hshape by lia.
  replace (0 <? chunk_size self - overlap self) with true in Hshape
    by (symmetry; apply Z.ltb_lt; lia).
  replace (0 <? len (str_split text) - overlap self) with true in Hshape
    by (symmetry; apply Z.ltb_lt; lia).
  assert (Hq0 : 0 <= (len (str_split text) - overlap self - 0 - 1)
                     / (chunk_size self - overlap self)) by (apply Z.div_pos; lia).
  set (q := (len (str_split text) - overlap self - 0 - 1)
            / (chunk_size self - overlap self)) in *.
  replace (Z.to_nat (q + 1)) with (S (Z.to_nat q)) in Hshape by lia.
  simpl range_from in Hshape. rewrite map_cons in Hshape.
  inversion Hshape as [Hchunks]. clear Hshape.
  rewrite <- Hchunks in Hok, Hcover.
  eexists; eexists. split; [exact Hok|]. split; [|exact Hcover].
  rewrite str_split_join by (apply py_slice_words, str_split_words).
  reflexivity.
Qed.

Lemma long_text_is_covered_witness :
  exists first rest,
    process_document (mk_DocumentProcessor 3 1) "a b c d e f" = Ok (first :: rest)
    /\ str_split first = py_take (str_split "a b c d e f") 3
    /\ non_overlapping 1 (first :: rest) = str_split "a b c d e f".
Proof.
  apply (long_text_is_covered (mk_DocumentProcessor 3 1) "a b c d e f");
    [simpl; lia | reflexivity].
Defined.

(** ** More on scoring *)

Lemma startswith_iff (s p : str) :
  startswith s p = true <-> exists post, s = p ++ post.
Proof.
  revert s; induction p as [|a p IH]; intros s; simpl.
  - destruct s; split; auto; intros _; eexists; reflexivity.
  - destruct s as [|b s]; simpl.
    + split; [discriminate | intros [post H]; discriminate H].
    + rewrite andb_true_iff, Ascii.eqb_eq, IH. split.
      * intros [-> [post ->]]. exists post. reflexivity.
      * intros [post H]. inversion H; subst. split; [reflexivity | exists post; reflexivity].
Qed.

(** [p in s] holds exactly when [s] is [pre + p + post]. *)
Lemma contains_iff (s p : str) :
  contains s p = true <-> exists pre post, s = pre ++ p ++ post.
Proof.
  induction s as [|c s IH].
  - change (contains [] p) with (startswith [] p || false).
    rewrite orb_false_r, startswith_iff. split.
    + intros [post H]. exists [], post. exact H.
    + intros [pre [post H]]. destruct pre; [exists post; exact H | discriminate H].
  - change (contains (c :: s) p) with (startswith (c :: s) p || contains s p).
    rewrite orb_true_iff, startswith_iff, IH. split.
    + intros [[post H] | [pre [post H]]].
      * exists [], post. exact H.
      * exists (c :: pre), post. rewrite H. reflexivity.
    + intros [[|a pre] [post H]].
      * left. exists post. exact H.
      * right. inversion H; subst. exists pre, post. reflexivity.
Qed.

Lemma contains_trans (s p w : str) :
  contains s p = true -> contains p w = true -> contains s w = true.
Proof.
  rewrite !contains_iff. intros [a [b ->]] [c [d ->]].
  exists (a ++ c), (d ++ b). now rewrite <- !app_assoc.
Qed.

Lemma split_ws_from_substring (s cur w : str) :
  In w (split_ws_from cur s) -> exists pre post, cur ++ s = pre ++ w ++ post.
Proof.
  revert cur; induction s as [|c s IH]; intros cur Hin; simpl in Hin.
  - destruct cur as [|a cur]; [contradiction|].
    destruct Hin as [<- | []]. exists [], []. now rewrite !app_nil_r.
  - destruct (isspace c).
    + assert (Hrest : In w (split_ws_from [] s) ->
                      exists pre post, cur ++ c :: s = pre ++ w ++ post).
      { intros H. destruct (IH [] H) as [pre [post Heq]]. simpl in Heq.
        exists (cur ++ c :: pre), post. rewrite Heq, <- app_assoc. reflexivity. }
      destruct cur as [|a cur]; [apply Hrest; exact Hin|].
      destruct Hin as [<- | Hin]; [|apply Hrest; exact Hin].
      exists [], (c :: s). reflexivity.
    + destruct (IH (cur ++ [c]) Hin) as [pre [post Heq]].
      exists pre, post. rewrite <- Heq, <- app_assoc. reflexivity.
Qed.

(** Every token of a string occurs in the string. *)
Lemma token_is_substring (s w : str) : In w (str_split s) -> contains s w = true.
Proof.
  intros Hin. apply contains_iff.
  destruct (split_ws_from_substring s [] w Hin) as [pre [post H]].
  exists pre, post. exact H.
Qed.

Lemma filter_len_le {A : Type} (p : A -> bool) (l : list A) : len (filter p l) <= len l.
Proof. unfold len. pose proof (filter_length_le p l). lia. Qed.

(** X3. The score of a line lies between 0 and twice the number of query
    words; it is positive exactly when some query word occurs in the
    lowercased line; and when the whole lowercased query occurs in the line,
    the score is exactly twice the number of query words. *)
Theorem line_score_bounds (query line : str) :
  let words := str_split (lower query) in
  let score := line_score (lower query) words line in
  0 <= score <= 2 * len words
  /\ (0 < score <-> exists w, In w words /\ contains (lower line) w = true)
  /\ (contains (lower line) (lower query) = true -> score = 2 * len words).
Proof.
  cbv zeta. unfold line_score. rewrite count_loop.
  set (words := str_split (lower query)).
  set (hits := filter (contains (lower line)) words).
  pose proof (filter_len_le (contains (lower line)) words) as Hle. fold hits in Hle.
  pose proof (len_nonneg hits) as Hh. pose proof (len_nonneg words) as Hw.
  assert (Hall : contains (lower line) (lower query) = true -> hits = words).
  { intros Hphrase. unfold hits. apply forallb_filter_id. apply forallb_forall.
    intros w Hin. apply (contains_trans _ (lower query)); [exact Hphrase|].
    apply token_is_substring. exact Hin. }
  split; [|split].
  - destruct (contains (lower line) (lower query)); lia.
  - split.
    + intros Hpos.
      assert (Hne : hits <> []).
      { intros Hnil. destruct (contains (lower line) (lower query)) eqn:Hp.
        - pose proof (Hall eq_refl) as Hsame. rewrite Hnil in Hsame.
          rewrite <- Hsame, Hnil in Hpos. cbn in Hpos. lia.
        - rewrite Hnil in Hpos. cbn in Hpos. lia. }
      destruct hits as [|w hits'] eqn:Hhits; [contradiction|].
      assert (Hin : In w (filter (contains (lower line)) words))
        by (fold hits; rewrite Hhits; left; reflexivity).
      apply filter_In in Hin. exists w. exact Hin.
    + intros [w [Hin Hc]].
      assert (Hin' : In w hits) by (apply filter_In; split; assumption).
      assert (0 < len hits)
        by (destruct hits; [contradiction | rewrite len_cons; pose proof (len_nonneg hits); lia]).
      destruct (contains (lower line) (lower query)); lia.
  - intros Hphrase. rewrite Hphrase, (Hall Hphrase). lia.
Qed.

(** ** More on retrieval *)

Lemma filter_none {A : Type} (p : A -> bool) (l : list A) :
  (forall x, In x l -> p x = false) -> filter p l = [].
Proof.
  induction l as [|x l IH]; intros H; [reflexivity|]. simpl.
  rewrite (H x (or_introl eq_refl)). apply IH. intros y Hy. apply H. now right.
Qed.

Lemma in_firstn {A : Type} (n : nat) (l : list A) (x : A) :
  In x (firstn n l) -> In x l.
Proof.
  intros H. rewrite <- (firstn_skipn n l). apply in_or_app. now left.
Qed.

Lemma line_score_zero (query line : str) :
  (forall w, In w (str_split (lower query)) -> contains (lower line) w = false) ->
  line_score (lower query) (str_split (lower query)) line = 0.
Proof.
  intros Hnone. unfold line_score. rewrite count_loop.
  assert (Hhits : filter (contains (lower line)) (str_split (lower query)) = []).
  { apply filter_none. exact Hnone. }
  rewrite Hhits. cbn [len List.length]. 
  destruct (contains (lower line) (lower query)) eqn:Hphrase; [|reflexivity].
  destruct (str_split (lower query)) as [|w ws] eqn:Hws; [reflexivity|].
  assert (Hin : In w (str_split (lower query))) by (rewrite Hws; left; reflexivity).
  pose proof (contains_trans _ _ _ Hphrase (token_is_substring _ _ Hin)) as Hc.
  rewrite (Hnone w (or_introl eq_refl)) in Hc. discriminate Hc.
Qed.

Lemma in_relevant_sections (ql : str) (qw lines : list str) (sec : section) :
  In sec (relevant_sections ql qw lines)
  <-> exists (i : nat) (line : str),
        nth_error lines i = Some line
        /\ 0 < line_score ql qw line
        /\ sec = (line_score ql qw line, context_at lines (Z.of_nat i), Z.of_nat i).
Proof.
  unfold relevant_sections, enumerate. rewrite scoring_loop_from. simpl app.
  rewrite in_flat_map. split.
  - intros [[j line] [Hin Hsec]]. simpl in Hsec.
    apply in_enumerate_from in Hin. destruct Hin as [k [Hj Hk]].
    destruct (0 <? line_score ql qw line) eqn:Hpos; [|contradiction].
    destruct Hsec as [Hsec | []]. apply Z.ltb_lt in Hpos.
    exists k, line. subst j. simpl in Hsec. now subst sec.
  - intros [i [line [Hnth [Hpos Hsec]]]].
    exists (Z.of_nat i, line). split.
    + apply in_enumerate_from. exists i. split; [lia | exact Hnth].
    + simpl. apply Z.ltb_lt in Hpos. rewrite Hpos. left. now subst sec.
Qed.

Lemma deduplicate_first (c : str) (l : list str) :
  exists added, deduplicate (c :: l) = c :: added.
Proof.
  unfold deduplicate. simpl fold_left.
  destruct (dedup_loop_settles l [c]) as [[added Hadd] _].
  exists added. exact Hadd.
Qed.

Lemma dedup_loop_incl (l acc : list str) (c : str) :
  In c (fold_left
          (fun unique_matches match_ =>
             if is_duplicate match_ unique_matches
             then unique_matches
             else unique_matches ++ [match_])
          l acc) ->
  In c acc \/ In c l.
Proof.
  revert acc; induction l as [|m l IH]; intros acc Hin; simpl in Hin; [now left|].
  apply IH in Hin. destruct Hin as [Hin | Hin]; [|right; now right].
  destruct (is_duplicate m acc); [now left|].
  apply in_app_or in Hin. destruct Hin as [Hin | [<- | []]]; [now left | right; now left].
Qed.

Lemma deduplicate_incl (l : list str) (c : str) : In c (deduplicate l) -> In c l.
Proof.
  intros Hin. apply dedup_loop_incl in Hin. destruct Hin as [[] | Hin]. exact Hin.
Qed.

Lemma in_top_matches (sections : list section) (c : str) :
  In c (top_matches sections) -> exists sec, In sec sections /\ c = sec_context sec.
Proof.
  unfold top_matches. rewrite py_take_firstn by lia. intros Hin.
  apply in_map_iff in Hin. destruct Hin as [sec [Hc Hin]].
  exists sec. split; [|now symmetry].
  apply (Permutation_in _ (Permutation_sym (sort_sections_perm sections))).
  eapply in_firstn; exact Hin.
Qed.

Lemma relevant_sections_none (ql : str) (qw lines : list str) :
  (forall line, In line lines -> line_score ql qw line <= 0) ->
  relevant_sections ql qw lines = [].
Proof.
  intros Hnone. destruct (relevant_sections ql qw lines) as [|sec rest] eqn:Hsecs;
    [reflexivity|].
  assert (Hin : In sec (relevant_sections ql qw lines)) by (rewrite Hsecs; now left).
  apply in_relevant_sections in Hin. destruct Hin as [i [line [Hnth [Hpos _]]]].
  apply nth_error_In in Hnth. specialize (Hnone line Hnth). lia.
Qed.

(** X4. When the knowledge base is not empty and no query word occurs in
    any of its lines (in particular for a query without words),
    [search_knowledge] returns the text
    [No relevant information found in knowledge base]. *)
Theorem no_match_gives_sentinel (kb query : str) :
  kb <> [] ->
  (forall line w,
      In line (split_on "010"%char kb) ->
      In w (str_split (lower query)) ->
      contains (lower line) w = false) ->
  search_knowledge kb query = "No relevant information found in knowledge base".
Proof.
  intros Hkb Hnone. unfold search_knowledge.
  destruct kb as [|c kb]; [contradiction|].
  rewrite relevant_sections_none; [reflexivity|].
  intros line Hline. rewrite line_score_zero; [lia|].
  intros w Hw. apply (Hnone line w Hline Hw).
Qed.

Lemma no_match_gives_sentinel_witness :
  search_knowledge ("cat facts" ++ nl ++ "dog facts") "Bird"
  = "No relevant information found in knowledge base".
Proof.
  apply no_match_gives_sentinel; [discriminate|].
  intros line w Hline Hw. vm_compute in Hline, Hw.
  destruct Hw as [<- | []]. destruct Hline as [<- | [<- | []]]; reflexivity.
Defined.

(** X5. [search_knowledge] returns one of three things: the text
    [No knowledge base available] for an empty knowledge base; the text
    [No relevant information found in knowledge base] when every line
    scores 0; otherwise one to three windows joined by the separator, each
    of them the context of a line of positive score. *)
Theorem search_knowledge_returns_contexts (kb query : str) :
  let lines := split_on "010"%char kb in
  let score := line_score (lower query) (str_split (lower query)) in
  (kb = [] /\ search_knowledge kb query = "No knowledge base available")
  \/ (kb <> []
      /\ Forall (fun line => score line = 0) lines
      /\ search_knowledge kb query = "No relevant information found in knowledge base")
  \/ (exists windows,
        search_knowledge kb query = join separator windows
        /\ (1 <= List.length windows <= 3)%nat
        /\ Forall (fun w => exists (i : nat) (line : str),
                       nth_error lines i = Some line
                       /\ 0 < score line
                       /\ w = context_at lines (Z.of_nat i))
             windows).
Proof.
  cbv zeta. destruct kb as [|c kb]; [left; split; reflexivity|]. right.
  set (lines := split_on "010"%char (c :: kb)).
  set (ql := lower query). set (qw := str_split ql).
  unfold search_knowledge. fold lines ql qw.
  destruct (relevant_sections ql qw lines) as [|sec secs] eqn:Hsecs.
  - left. split; [discriminate|]. split; [|reflexivity].
    apply Forall_forall. intros line Hline.
    destruct (In_nth_error _ _ Hline) as [i Hi].
    destruct (Z.lt_ge_cases 0 (line_score ql qw line)) as [Hpos | Hle].
    + assert (Hin : In (line_score ql qw line, context_at lines (Z.of_nat i), Z.of_nat i)
                      (relevant_sections ql qw lines))
        by (apply in_relevant_sections; exists i, line; auto).
      rewrite Hsecs in Hin. contradiction.
    + unfold line_score in *. rewrite count_loop in *.
      pose proof (len_nonneg (filter (contains (lower line)) qw)).
      pose proof (len_nonneg qw).
      destruct (contains (lower line) ql); lia.
  - right. rewrite <- Hsecs. set (sections := relevant_sections ql qw lines) in *.
    unfold select_and_join, assemble. rewrite py_take_firstn by lia.
    change (Z.to_nat 3) with 3%nat.
    assert (Htop : exists c0 rest, top_matches sections = c0 :: rest).
    { unfold top_matches. rewrite py_take_firstn by lia.
      pose proof (Permutation_length (sort_sections_perm sections)) as Hlen.
      rewrite Hsecs in Hlen at 1. simpl in Hlen.
      destruct (sort_sections sections) as [|s0 ss]; [discriminate Hlen|].
      simpl. eexists; eexists; reflexivity. }
    destruct Htop as [c0 [rest Htop]].
    destruct (deduplicate_first c0 rest) as [added Hded].
    exists (firstn 3 (deduplicate (top_matches sections))).
    split; [reflexivity|]. split.
    + rewrite Htop, Hded. simpl. destruct added as [|? [|? ?]]; simpl; lia.
    + apply Forall_forall. intros w Hw.
      apply in_firstn, deduplicate_incl, in_top_matches in Hw.
      destruct Hw as [s [Hs ->]].
      apply in_relevant_sections in Hs.
      destruct Hs as [i [line [Hnth [Hpos ->]]]].
      exists i, line. auto.
Qed.

(** The head of the sorted list is the first section of maximal score. *)
Lemma sort_sections_head (pre post : list section) (h : section) :
  (forall s, In s pre -> sec_score s < sec_score h) ->
  (forall s, In s post -> sec_score s <= sec_score h) ->
  exists rest, sort_sections (pre ++ h :: post) = h :: rest.
Proof.
  intros Hpre Hpost. set (l := pre ++ h :: post).
  pose proof (sort_sections_sorted l) as Hsorted.
  pose proof (sort_sections_perm l) as Hperm.
  pose proof (sort_sections_stable (sec_score h) l) as Hstable.
  assert (Hfilter : filter (fun y => sec_score y =? sec_score h) l
                    = h :: filter (fun y => sec_score y =? sec_score h) post).
  { unfold l. rewrite filter_app.
    rewrite (filter_none _ pre)
      by (intros s Hs; apply Z.eqb_neq; specialize (Hpre s Hs); lia).
    simpl. now rewrite Z.eqb_refl. }
  rewrite Hfilter in Hstable.
  destruct (sort_sections l) as [|h' rest] eqn:Hsort; [discriminate Hstable|].
  assert (Hmax : sec_score h' = sec_score h).
  { assert (Hh' : In h' l)
      by (apply (Permutation_in _ (Permutation_sym Hperm)); now left).
    assert (Hh : In h (h' :: rest))
      by (apply (Permutation_in _ Hperm); unfold l; apply in_or_app; right; now left).
    assert (sec_score h' <= sec_score h).
    { unfold l in Hh'. apply in_app_or in Hh'.
      destruct Hh' as [Hp | [<- | Hp]]; [specialize (Hpre _ Hp) | | specialize (Hpost _ Hp)]; lia. }
    inversion Hsorted as [|? ? _ Hall]; subst.
    destruct Hh as [<- | Hh]; [lia|].
    rewrite Forall_forall in Hall. specialize (Hall h Hh). lia. }
  simpl in Hstable. rewrite Hmax, Z.eqb_refl in Hstable.
  inversion Hstable; subst. exists rest. reflexivity.
Qed.

(** X6. The returned text starts with the context of the best section: the
    first section, in corpus order, among those of the highest score.
    Deduplication never removes it. *)
Theorem best_section_leads (pre post : list section) (h : section) :
  (forall s, In s pre -> sec_score s < sec_score h) ->
  (forall s, In s post -> sec_score s <= sec_score h) ->
  exists rest, select_and_join (pre ++ h :: post) = sec_context h ++ rest.
Proof.
  intros Hpre Hpost.
  destruct (sort_sections_head pre post h Hpre Hpost) as [sorted Hsort].
  unfold select_and_join, assemble, top_matches.
  rewrite Hsort, !py_take_firstn by lia.
  change (Z.to_nat 4) with 4%nat. change (Z.to_nat 3) with 3%nat.
  rewrite firstn_cons, map_cons.
  destruct (deduplicate_first (sec_context h) (map sec_context (firstn 3 sorted)))
    as [added Hded].
  rewrite Hded, firstn_cons.
  destruct (firstn 2 added) as [|a more].
  - exists []. simpl. now rewrite app_nil_r.
  - exists (separator ++ join separator (a :: more)). reflexivity.
Qed.

Lemma best_section_leads_witness :
  exists rest,
    select_and_join ([(1, "dog" : str, 0)] ++ (3, "big cat" : str, 4) :: [(3, "cat" : str, 9)])
    = "big cat" ++ rest.
Proof.
  apply (best_section_leads [(1, "dog" : str, 0)] [(3, "cat" : str, 9)] (3, "big cat" : str, 4)).
  - intros s [<- | []]. reflexivity.
  - intros s [<- | []]. discriminate.
Defined.

Lemma ordered_pairs_snoc {A : Type} (R : A -> A -> Prop) (l : list A) (x : A) :
  ForallOrdPairs R l -> Forall (fun a => R a x) l -> ForallOrdPairs R (l ++ [x]).
Proof.
  induction 1 as [|a l Ha Hl IH]; intros Hx; simpl.
  - constructor; constructor.
  - inversion Hx; subst. constructor; [|apply IH; assumption].
    apply Forall_app. split; [exact Ha | constructor; [assumption | constructor]].
Qed.

Lemma ordered_pairs_firstn {A : Type} (R : A -> A -> Prop) (n : nat) (l : list A) :
  ForallOrdPairs R l -> ForallOrdPairs R (firstn n l).
Proof.
  intros H. revert n. induction H as [|a l Ha Hl IH]; intros [|n]; simpl; try constructor.
  - rewrite <- (firstn_skipn n l) in Ha. now apply Forall_app in Ha.
  - apply IH.
Qed.

Lemma dedup_loop_apart (l acc : list str) :
  ForallOrdPairs (fun a b => overlaps b a = false) acc ->
  ForallOrdPairs (fun a b => overlaps b a = false)
    (fold_left
       (fun unique_matches match_ =>
          if is_duplicate match_ unique_matches
          then unique_matches
          else unique_matches ++ [match_])
       l acc).
Proof.
  revert acc; induction l as [|m l IH]; intros acc Hacc; simpl; [exact Hacc|].
  apply IH. destruct (is_duplicate m acc) eqn:Hdup; [exact Hacc|].
  apply ordered_pairs_snoc; [exact Hacc|].
  apply Forall_forall. intros e He.
  destruct (overlaps m e) eqn:Ho; [|reflexivity].
  unfold is_duplicate in Hdup.
  assert (existsb (overlaps m) acc = true)
    by (apply existsb_exists; exists e; split; assumption).
  congruence.
Qed.

(** X7. Of any two returned windows, the later one does not pass the
    overlap test against the earlier one. *)
Theorem returned_windows_do_not_overlap (sections : list section) :
  ForallOrdPairs (fun earlier later => overlaps later earlier = false)
    (py_take (deduplicate (top_matches sections)) 3).
Proof.
  rewrite py_take_firstn by lia. apply ordered_pairs_firstn.
  apply dedup_loop_apart. constructor.
Qed.

(** X8. For a line index [i] inside the corpus, the context of line [i] is
    the lines from [max(0, i - 3)] up to [min(len, i + 4)] joined by
    newlines: between 1 and 7 lines, with line [i] among them at offset
    [i - max(0, i - 3)]. *)
Theorem context_window_bounds (lines : list str) (i : Z) :
  0 <= i < len lines ->
  let start := Z.max 0 (i - 3) in
  let window := py_slice lines start (Z.min (len lines) (i + 4)) in
  context_at lines i = join nl window
  /\ 1 <= len window <= 7
  /\ window = firstn (Z.to_nat (Z.min (len lines) (i + 4) - start))
                (skipn (Z.to_nat start) lines)
  /\ nth_error window (Z.to_nat (i - start)) = nth_error lines (Z.to_nat i).
Proof.
  intros Hi. cbv zeta. split; [reflexivity|].
  rewrite py_slice_len by lia. split; [lia|].
  rewrite py_slice_firstn_skipn by lia. split; [reflexivity|].
  rewrite nth_error_firstn.
  replace (Z.to_nat (i - Z.max 0 (i - 3))
           <? Z.to_nat (Z.min (len lines) (i + 4) - Z.max 0 (i - 3)))%nat
    with true by (symmetry; apply Nat.ltb_lt; lia).
  rewrite nth_error_skipn. f_equal. lia.
Qed.

Lemma context_window_bounds_witness :
  let lines := strs ["a"; "b"; "c"; "d"; "e"; "f"; "g"; "h"; "i"] in
  let window := py_slice lines (Z.max 0 (1 - 3)) (Z.min (len lines) (1 + 4)) in
  context_at lines 1 = join nl window
  /\ 1 <= len window <= 7
  /\ window = firstn (Z.to_nat (Z.min (len lines) (1 + 4) - Z.max 0 (1 - 3)))
                (skipn (Z.to_nat (Z.max 0 (1 - 3))) lines)
  /\ nth_error window (Z.to_nat (1 - Z.max 0 (1 - 3))) = nth_error lines (Z.to_nat 1).
Proof.
  apply (context_window_bounds (strs ["a"; "b"; "c"; "d"; "e"; "f"; "g"; "h"; "i"]) 1).
  vm_compute. split; [discriminate | reflexivity].
Defined.

(** ** More on post-processing *)

Lemma startswith_nil (s : str) : startswith s [] = true.
Proof. destruct s; reflexivity. Qed.

(** Replacing a one-character string goes character by character. *)
Lemma replace_char (c : ascii) (new s : str) :
  replace s [c] new = flat_map (fun x => if Ascii.eqb c x then new else [x]) s.
Proof.
  unfold replace. induction s as [|x s IH]; [reflexivity|].
  cbn [replace_from flat_map List.length Nat.sub].
  change (startswith (x :: s) [c]) with (Ascii.eqb c x && startswith s []).
  rewrite startswith_nil, andb_true_r.
  destruct (Ascii.eqb c x); rewrite IH; reflexivity.
Qed.

(** A replacement only puts in characters of the old text and of [new]. *)
Lemma replace_from_chars (P : ascii -> Prop) (old new : str) (skip : nat) (s : str) :
  Forall P s -> Forall P new -> Forall P (replace_from old new skip s).
Proof.
  intros Hs Hnew. revert skip.
  induction Hs as [|x s Hx Hs IH]; intros skip; cbn [replace_from].
  - constructor.
  - destruct skip as [|k]; [|apply IH].
    destruct (startswith (x :: s) old).
    + apply Forall_app. split; [exact Hnew | apply IH].
    + constructor; [exact Hx | apply IH].
Qed.

Lemma replace_chars (P : ascii -> Prop) (s old new : str) :
  Forall P s -> Forall P new -> Forall P (replace s old new).
Proof. apply replace_from_chars. Qed.

Lemma replace_char_gone (c : ascii) (new s : str) :
  Forall (fun x => x <> c) new -> Forall (fun x => x <> c) (replace s [c] new).
Proof.
  intros Hnew. rewrite replace_char. apply Forall_flat_map, Forall_forall.
  intros x _. destruct (Ascii.eqb c x) eqn:E; [exact Hnew|].
  constructor; [|constructor]. apply Ascii.eqb_neq in E. congruence.
Qed.

Lemma lstrip_suffix (s : str) : exists spaces, s = spaces ++ lstrip s.
Proof.
  induction s as [|c s [sp IH]]; [exists []; reflexivity|]. simpl.
  destruct (isspace c); [exists (c :: sp); simpl; now rewrite <- IH | exists []; reflexivity].
Qed.

Lemma rstrip_prefix (s : str) : exists spaces, s = rstrip s ++ spaces.
Proof.
  unfold rstrip. destruct (lstrip_suffix (rev s)) as [sp H].
  exists (rev sp). rewrite <- rev_app_distr, <- H. now rewrite rev_involutive.
Qed.

Lemma lstrip_chars (P : ascii -> Prop) (s : str) : Forall P s -> Forall P (lstrip s).
Proof.
  intros H. destruct (lstrip_suffix s) as [sp Hs]. rewrite Hs in H.
  now apply Forall_app in H.
Qed.

Lemma rstrip_chars (P : ascii -> Prop) (s : str) : Forall P s -> Forall P (rstrip s).
Proof.
  intros H. destruct (rstrip_prefix s) as [sp Hs]. rewrite Hs in H.
  now apply Forall_app in H.
Qed.

Lemma lstrip_idempotent (s : str) : lstrip (lstrip s) = lstrip s.
Proof.
  induction s as [|c s IH]; [reflexivity|]. simpl.
  destruct (isspace c) eqn:Hc; [exact IH|]. simpl. now rewrite Hc.
Qed.

Lemma rstrip_idempotent (s : str) : rstrip (rstrip s) = rstrip s.
Proof. unfold rstrip. now rewrite rev_involutive, lstrip_idempotent. Qed.

(** Stripping on the right keeps a text free of leading whitespace so. *)
Lemma lstrip_rstrip (s : str) : lstrip s = s -> lstrip (rstrip s) = rstrip s.
Proof.
  intros Hs. destruct (rstrip_prefix s) as [sp Hsp].
  destruct (rstrip s) as [|c r] eqn:Hr; [reflexivity|].
  rewrite Hsp in Hs. simpl in Hs. simpl.
  destruct (isspace c); [|reflexivity].
  exfalso. pose proof (lstrip_length (r ++ sp)) as Hlen.
  rewrite Hs in Hlen. simpl in Hlen. lia.
Qed.

Lemma strip_idempotent (s : str) : strip (strip s) = strip s.
Proof.
  unfold strip. rewrite (lstrip_rstrip (lstrip s)) by apply lstrip_idempotent.
  apply rstrip_idempotent.
Qed.

(** X9. The output of [clean_for_voice] contains no asterisk, no backtick
    and no newline, and it has no leading or trailing whitespace (stripping
    it again changes nothing). *)
Theorem clean_for_voice_output_is_plain (text : str) :
  Forall (fun c => c <> "*"%char /\ c <> "`"%char /\ c <> "010"%char)
    (clean_for_voice text)
  /\ strip (clean_for_voice text) = clean_for_voice text.
Proof.
  split; [|apply strip_idempotent].
  assert (Hmarkup : Forall (fun c => c <> "*"%char /\ c <> "`"%char /\ c <> "010"%char)
                      (strip_markup text)).
  { unfold strip_markup.
    set (t2 := replace (replace text "**" "") "*" "").
    assert (H2 : Forall (fun c => c <> "*"%char) t2)
      by (apply (replace_char_gone "*"%char); constructor).
    set (t4 := replace (replace t2 "```" "") "`" "").
    assert (H4a : Forall (fun c => c <> "*"%char) t4)
      by (apply replace_chars; [apply replace_chars; [exact H2 | constructor] | constructor]).
    assert (H4b : Forall (fun c => c <> "`"%char) t4)
      by (apply (replace_char_gone "`"%char); constructor).
    assert (H5 : Forall (fun c => c <> "010"%char) (replace t4 nl ". "))
      by (apply (replace_char_gone "010"%char); repeat constructor; discriminate).
    assert (H5a : Forall (fun c => c <> "*"%char) (replace t4 nl ". "))
      by (apply replace_chars; [exact H4a | repeat constructor; discriminate]).
    assert (H5b : Forall (fun c => c <> "`"%char) (replace t4 nl ". "))
      by (apply replace_chars; [exact H4b | repeat constructor; discriminate]).
    rewrite Forall_forall in *. intros c Hc. auto. }
  unfold clean_for_voice, strip. apply rstrip_chars, lstrip_chars.
  destruct (500 <? len (strip_markup text)); [|exact Hmarkup].
  apply Forall_app. split.
  - unfold py_take, py_slice. apply Forall_firstn, Forall_skipn. exact Hmarkup.
  - repeat constructor; discriminate.
Qed.

(** ** More on prompts *)

(** X10. For every strategy the prompt is a fixed text with the context
    and the user input put in unchanged, once each, the context first: the
    prompt is [before + context + between + user_input + after] for three
    texts that depend on the strategy only, [before] and [after] not
    empty. *)
Theorem prompt_embeds_context_then_query (strategy : str) :
  exists before between after : str,
    before <> [] /\ after <> []
    /\ forall user_input context : str,
         get_advanced_prompt user_input context strategy
         = before ++ context ++ between ++ user_input ++ after.
Proof.
  unfold get_advanced_prompt.
  destruct (str_eqb strategy "enhanced");
    [|destruct (str_eqb strategy "analytical");
      [|destruct (str_eqb strategy "creative")]].
  - exists (firstn 196 (enhanced_prompt [] [])),
           (firstn 14 (skipn 196 (enhanced_prompt [] []))),
           (skipn 210 (enhanced_prompt [] [])).
    split; [discriminate | split; [discriminate | intros; reflexivity]].
  - exists (firstn 170 (analytical_prompt [] [])),
           (firstn 20 (skipn 170 (analytical_prompt [] []))),
           (skipn 190 (analytical_prompt [] [])).
    split; [discriminate | split; [discriminate | intros; reflexivity]].
  - exists (firstn 171 (creative_prompt [] [])),
           (firstn 22 (skipn 171 (creative_prompt [] []))),
           (skipn 193 (creative_prompt [] [])).
    split; [discriminate | split; [discriminate | intros; reflexivity]].
  - exists (firstn 157 (simple_prompt [] [])),
           (firstn 17 (skipn 157 (simple_prompt [] []))),
           (skipn 174 (simple_prompt [] [])).
    split; [discriminate | split; [discriminate | intros; reflexivity]].
Qed.

(** ** More on the agent *)

Section MoreAgentProperties.

Variable pyfloat : Type.
Variables float_0_3 float_0_9 float_1_1 : pyfloat.
Variable ECONNREFUSED : Z.
Variable invoke : OllamaLLM pyfloat -> str -> res str * OllamaLLM pyfloat.

Abbreviation agent_run := (run pyfloat invoke).
Abbreviation agent_run_advanced :=
  (run_advanced pyfloat float_0_9 float_1_1 ECONNREFUSED invoke).
Abbreviation advanced_llm := (new_advanced_llm pyfloat float_0_9 float_1_1).
Abbreviation new_agent := (__init__ pyfloat float_0_3 float_0_9 float_1_1).

(** X12. Each method on its own returns the response of its call of the
    completion service passed through [clean_for_voice]: [run] when its call
    [self.llm.invoke] returns, whatever the service would do for
    [run_advanced]; [run_advanced] when the call on the object it builds
    returns, whatever the service would do for [run]. *)
Theorem successful_call_returns_cleaned_response
    (self : SimpleRAGAgent pyfloat) (user_input : str)
    (temperature : pyfloat) (max_context : Z) (prompt_strategy : str) :
  (forall response : str,
      fst (invoke (llm self)
             (simple_prompt user_input
                (search_knowledge (knowledge_base self) user_input))) = Ok response ->
      fst (agent_run user_input self) = Ok (clean_for_voice response))
  /\
  (forall response : str,
      fst (invoke (advanced_llm temperature max_context)
             (get_advanced_prompt user_input
                (search_knowledge (knowledge_base self) user_input)
                prompt_strategy)) = Ok response ->
      fst (agent_run_advanced user_input temperature max_context prompt_strategy self)
      = Ok (clean_for_voice response)).
Proof.
  split; intros response Hok.
  - unfold run, try_except, bind, read, invoke_own, ret.
    destruct (invoke (llm self) _) as [r l']. simpl in Hok. subst r. reflexivity.
  - unfold run_advanced, try_except, bind, read, invoke_local, ret.
    rewrite Hok. reflexivity.
Qed.

(** X11. Whatever the completion service does (return or raise, on any
    prompt), [run] and [run_advanced] return a string: neither raises. *)
Theorem agent_calls_never_raise
    (self : SimpleRAGAgent pyfloat) (user_input : str)
    (temperature : pyfloat) (max_context : Z) (prompt_strategy : str) :
  (exists answer, fst (agent_run user_input self) = Ok answer)
  /\ (exists answer,
        fst (agent_run_advanced user_input temperature max_context
               prompt_strategy self) = Ok answer).
Proof.
  split.
  - unfold run, try_except, bind, read, invoke_own, ret.
    destruct (invoke _ _) as [[r|e] l']; eexists; reflexivity.
  - unfold run_advanced, try_except, bind, read, invoke_local, ret.
    destruct (fst (invoke _ _)) as [r|e]; [eexists; reflexivity|].
    destruct (connection_refused ECONNREFUSED e); eexists; reflexivity.
Qed.

(** X13. The answer of [run_advanced] depends on the agent only through
    its knowledge base: two agents with the same knowledge base, whatever
    their [llm] and [fast_mode], give the same answer to the same call. *)
Theorem run_advanced_only_reads_knowledge_base
    (a b : SimpleRAGAgent pyfloat) (user_input : str)
    (temperature : pyfloat) (max_context : Z) (prompt_strategy : str) :
  knowledge_base a = knowledge_base b ->
  fst (agent_run_advanced user_input temperature max_context prompt_strategy a)
  = fst (agent_run_advanced user_input temperature max_context prompt_strategy b).
Proof.
  intros Hkb. unfold run_advanced, try_except, bind, read, invoke_local, ret.
  rewrite Hkb.
  destruct (fst (invoke _ _)) as [r|e]; [reflexivity|].
  destruct (connection_refused ECONNREFUSED e); reflexivity.
Qed.

(** X14. On a standard agent as [__init__] builds it ([fast_mode] off),
    [run_advanced] with the default temperature 0.3, the default context
    size 16384 and the [simple] (or an unknown) strategy gives the answer
    [run] gives, when the completion service answers the prompt. *)
Theorem run_advanced_defaults_answer_like_run
    (loaded user_input prompt_strategy response : str) :
  prompt_strategy <> "enhanced" ->
  prompt_strategy <> "analytical" ->
  prompt_strategy <> "creative" ->
  fst (invoke (llm (new_agent false loaded))
         (simple_prompt user_input (search_knowledge loaded user_input)))
  = Ok response ->
  fst (agent_run_advanced user_input float_0_3 16384 prompt_strategy
         (new_agent false loaded))
  = fst (agent_run user_input (new_agent false loaded)).
Proof.
  intros H1 H2 H3 Hok.
  unfold run_advanced, run, try_except, bind, read, invoke_local, invoke_own, ret.
  unfold get_advanced_prompt.
  rewrite (str_eqb_neq _ _ H1), (str_eqb_neq _ _ H2), (str_eqb_neq _ _ H3).
  change (new_advanced_llm pyfloat float_0_9 float_1_1 float_0_3 16384)
    with (llm (new_agent false loaded)).
  change (knowledge_base (new_agent false loaded)) with loaded.
  destruct (invoke (llm (new_agent false loaded)) _) as [r l'].
  simpl in Hok. subst r. reflexivity.
Qed.

(** X15. [run] leaves [fast_mode] and [knowledge_base] of the agent as
    they are; the only attribute it can change is [llm], and only by what
    the completion service does to the object it is invoked on. *)
Theorem run_keeps_mode_and_knowledge_base
    (self : SimpleRAGAgent pyfloat) (user_input : str) :
  let self' := snd (agent_run user_input self) in
  fast_mode self' = fast_mode self
  /\ knowledge_base self' = knowledge_base self
  /\ llm self'
     = snd (invoke (llm self)
              (simple_prompt user_input
                 (search_knowledge (knowledge_base self) user_input))).
Proof.
  cbv zeta. unfold run, try_except, bind, read, invoke_own, ret.
  destruct (invoke (llm self) _) as [[r|e] l']; repeat split; reflexivity.
Qed.

End MoreAgentProperties.

Lemma successful_call_returns_cleaned_response_witness :
  fst (run Q answering_service "where is the cat" sample_agent)
  = Ok ("Cats purr.. Dogs bark." : str)
  /\ fst (run_advanced Q (9 # 10)%Q (11 # 10)%Q 111 mistral_only_service
            "where is the cat" (3 # 10)%Q 16384 "simple" sample_fast_agent)
     = Ok ("Cats purr.. Dogs bark." : str).
Proof.
  split.
  - apply (proj1 (successful_call_returns_cleaned_response Q (9 # 10)%Q (11 # 10)%Q 111
                    answering_service sample_agent "where is the cat"
                    (3 # 10)%Q 16384 "simple")
             ("**Cats** purr." ++ nl ++ "Dogs bark.")).
    reflexivity.
  - apply (proj2 (successful_call_returns_cleaned_response Q (9 # 10)%Q (11 # 10)%Q 111
                    mistral_only_service sample_fast_agent "where is the cat"
                    (3 # 10)%Q 16384 "simple")
             ("**Cats** purr." ++ nl ++ "Dogs bark.")).
    reflexivity.
Defined.

Lemma run_advanced_only_reads_knowledge_base_witness :
  fst (run_advanced Q (9 # 10)%Q (11 # 10)%Q 111 refusing_service
         "where is the cat" (3 # 10)%Q 16384 "simple" sample_agent)
  = fst (run_advanced Q (9 # 10)%Q (11 # 10)%Q 111 refusing_service
           "where is the cat" (3 # 10)%Q 16384 "simple"
           (__init__ Q (3 # 10)%Q (9 # 10)%Q (11 # 10)%Q true
              ("cat facts" ++ nl ++ "dog facts"))).
Proof.
  apply run_advanced_only_reads_knowledge_base. reflexivity.
Defined.

Lemma run_advanced_defaults_answer_like_run_witness :
  fst (run_advanced Q (9 # 10)%Q (11 # 10)%Q 111 answering_service
         "where is the cat" (3 # 10)%Q 16384 "simple" sample_agent)
  = fst (run Q answering_service "where is the cat" sample_agent).
Proof.
  apply (run_advanced_defaults_answer_like_run Q (3 # 10)%Q (9 # 10)%Q (11 # 10)%Q 111
           answering_service ("cat facts" ++ nl ++ "dog facts") "where is the cat"
           "simple" ("**Cats** purr." ++ nl ++ "Dogs bark."));
    try (intro H; discriminate H). reflexivity.
Defined.

(** ** The conversation window *)

Lemma skipn_tl {A : Type} (l : list A) : tl l = skipn 1 l.
Proof. destruct l; reflexivity. Qed.

(** One append to a bounded deque that respects its bound. *)
Lemma deque_append_bounded (d : deque) (x : str) (m : Z) :
  maxlen d = Some m -> 0 <= m -> len (items d) <= m ->
  maxlen (deque_append d x) = Some m
  /\ len (items (deque_append d x)) <= m
  /\ items (deque_append d x)
     = skipn (List.length (items d ++ [x]) - Z.to_nat m) (items d ++ [x]).
Proof.
  intros Hmax Hm Hlen. unfold deque_append. rewrite Hmax. simpl maxlen. simpl items.
  split; [reflexivity|].
  assert (Hl : List.length (items d ++ [x]) = S (List.length (items d)))
    by (rewrite length_app; simpl; lia).
  unfold len in *. destruct (m <? Z.of_nat (List.length (items d ++ [x]))) eqn:Hfull.
  - apply Z.ltb_lt in Hfull.
    replace (List.length (items d ++ [x]) - Z.to_nat m)%nat with 1%nat by lia.
    rewrite skipn_tl. split; [rewrite length_skipn; lia | reflexivity].
  - apply Z.ltb_ge in Hfull.
    replace (List.length (items d ++ [x]) - Z.to_nat m)%nat with 0%nat by lia.
    split; [lia | reflexivity].
Qed.

Lemma skipn_last_of_app {A : Type} (a l : list A) (m : nat) :
  skipn (List.length (skipn (List.length a - m) a ++ l) - m)
    (skipn (List.length a - m) a ++ l)
  = skipn (List.length (a ++ l) - m) (a ++ l).
Proof.
  rewrite !length_app, length_skipn.
  destruct (Nat.le_gt_cases (List.length a) m) as [Hle | Hgt].
  - replace (List.length a - m)%nat with 0%nat by lia. simpl skipn.
    f_equal. lia.
  - replace (List.length a - (List.length a - m) + List.length l - m)%nat
      with (List.length l) by lia.
    replace (List.length a + List.length l - m)%nat
      with ((List.length a - m) + List.length l)%nat by lia.
    rewrite (Nat.add_comm (List.length a - m)), <- skipn_skipn.
    f_equal. rewrite skipn_app.
    replace (List.length a - m - List.length a)%nat with 0%nat by lia.
    reflexivity.
Qed.

Lemma deque_extend_bounded (l : list str) (d : deque) (m : Z) :
  maxlen d = Some m -> 0 <= m -> len (items d) <= m ->
  maxlen (fold_left deque_append l d) = Some m
  /\ len (items (fold_left deque_append l d)) <= m
  /\ items (fold_left deque_append l d)
     = skipn (List.length (items d ++ l) - Z.to_nat m) (items d ++ l).
Proof.
  revert d; induction l as [|x l IH]; intros d Hmax Hm Hlen; simpl fold_left.
  - split; [exact Hmax|]. split; [exact Hlen|].
    rewrite app_nil_r. unfold len in Hlen.
    replace (List.length (items d) - Z.to_nat m)%nat with 0%nat by lia. reflexivity.
  - destruct (deque_append_bounded d x m Hmax Hm Hlen) as [Hmax' [Hlen' Hitems']].
    destruct (IH (deque_append d x) Hmax' Hm Hlen') as [Hmax'' [Hlen'' Hitems'']].
    split; [exact Hmax''|]. split; [exact Hlen''|].
    rewrite Hitems'', Hitems', skipn_last_of_app, <- app_assoc. reflexivity.
Qed.

(** X16. On a window bounded by [maxlen = m] that holds at most [m]
    messages, [manage_context] leaves the last [m] of the old messages
    followed by the new ones (all of them when there are fewer), still at
    most [m], and returns them joined by newlines; when at least [m] new
    messages are passed, the window afterwards is the last [m] of these,
    whatever it held before. *)
Theorem manage_context_keeps_latest
    (self : ContextManager) (conversation_history : list str) (m : Z) :
  maxlen (history self) = Some m ->
  0 <= m ->
  len (items (history self)) <= m ->
  let context := fst (manage_context self conversation_history) in
  let self' := snd (manage_context self conversation_history) in
  let all := items (history self) ++ conversation_history in
  items (history self') = skipn (List.length all - Z.to_nat m) all
  /\ maxlen (history self') = Some m
  /\ len (items (history self')) <= m
  /\ context = join nl (items (history self'))
  /\ (m <= len conversation_history ->
      items (history self')
      = skipn (List.length conversation_history - Z.to_nat m) conversation_history).
Proof.
  intros Hmax Hm Hlen. cbv zeta. unfold manage_context. simpl fst. simpl snd. simpl history.
  destruct (deque_extend_bounded conversation_history (history self) m Hmax Hm Hlen)
    as [Hmax' [Hlen' Hitems']].
  split; [exact Hitems'|]. split; [exact Hmax'|]. split; [exact Hlen'|].
  split; [reflexivity|].
  intros Hmany. rewrite Hitems'. unfold len in *.
  rewrite skipn_app, length_app.
  rewrite (skipn_all2 (items (history self))) by lia.
  simpl app. f_equal. lia.
Qed.

Lemma manage_context_keeps_latest_witness :
  let self := mk_ContextManager 2 (mk_deque (Some 2) (strs ["hello"])) in
  let self' := snd (manage_context self (strs ["how"; "are"; "you"])) in
  items (history self') = strs ["are"; "you"]
  /\ fst (manage_context self (strs ["how"; "are"; "you"])) = "are" ++ nl ++ "you".
Proof.
  cbv zeta.
  destruct (manage_context_keeps_latest
              (mk_ContextManager 2 (mk_deque (Some 2) (strs ["hello"])))
              (strs ["how"; "are"; "you"]) 2)
    as [Hitems [_ [_ [Hcontext _]]]]; [reflexivity | lia | vm_compute; discriminate |].
  split; [rewrite Hitems; reflexivity | rewrite Hcontext, Hitems; reflexivity].
Defined.

(** ** Routing *)

Lemma lower_char_not_upper (c : ascii) : isupper_char (lower_char c) = false.
Proof.
  unfold isupper_char, lower_char.
  destruct ((65 <=? nat_of_ascii c)%nat && (nat_of_ascii c <=? 90)%nat) eqn:Hup.
  - apply andb_true_iff in Hup. destruct Hup as [H1 H2].
    apply Nat.leb_le in H1, H2.
    rewrite nat_ascii_embedding by lia.
    apply andb_false_iff. right. apply Nat.leb_gt. lia.
  - exact Hup.
Qed.

Lemma lower_has_no_upper (s : str) : existsb isupper_char (lower s) = false.
Proof.
  induction s as [|c s IH]; [reflexivity|]. simpl.
  now rewrite lower_char_not_upper, IH.
Qed.

(** A key with an uppercase letter occurs in no lowercased query. *)
Lemma upper_key_never_matches (query key : str) :
  existsb isupper_char key = true -> contains (lower query) key = false.
Proof.
  intros Hup. destruct (contains (lower query) key) eqn:Hc; [|reflexivity].
  apply contains_iff in Hc. destruct Hc as [pre [post Heq]].
  pose proof (lower_has_no_upper query) as Hlow.
  rewrite Heq, !existsb_app, Hup in Hlow.
  rewrite orb_true_r in Hlow. discriminate Hlow.
Qed.

Lemma dict_get_filter {Agent : Type} (agents : list (str * Agent)) (key k : str) :
  key <> k ->
  dict_get (filter (fun ka => negb (str_eqb (fst ka) key)) agents) k
  = dict_get agents k.
Proof.
  intros Hne. induction agents as [|[k0 a] agents IH]; [reflexivity|]. simpl.
  destruct (str_eqb k0 key) eqn:Hk0; simpl.
  - apply str_eqb_eq in Hk0. subst k0.
    rewrite (str_eqb_neq _ _ Hne). exact IH.
  - destruct (str_eqb k0 k); [reflexivity | exact IH].
Qed.

Lemma route_loop_filter {Agent : Type} (q key : str)
    (agents agents' todo : list (str * Agent)) :
  contains q key = false ->
  dict_get agents' "default" = dict_get agents "default" ->
  route_loop q agents' (filter (fun ka => negb (str_eqb (fst ka) key)) todo)
  = route_loop q agents todo.
Proof.
  intros Hkey Hdefault. induction todo as [|[k0 a] todo IH]; simpl; [exact Hdefault|].
  destruct (str_eqb k0 key) eqn:Hk0; simpl.
  - apply str_eqb_eq in Hk0. subst k0. rewrite Hkey. exact IH.
  - destruct (contains q k0); [reflexivity | exact IH].
Qed.

(** X17. An agent registered under a key that has an uppercase letter is
    never selected: the query is lowercased before the keys are looked for
    in it, so routing with that entry and without it is the same. *)
Theorem uppercase_key_is_never_routed_to
    {Agent : Type} (agents : list (str * Agent)) (key query : str) :
  existsb isupper_char key = true ->
  route_query agents query
  = route_query (filter (fun ka => negb (str_eqb (fst ka) key)) agents) query.
Proof.
  intros Hup. unfold route_query. symmetry.
  apply route_loop_filter; [apply upper_key_never_matches; exact Hup|].
  apply dict_get_filter. intros ->. discriminate Hup.
Qed.

Lemma uppercase_key_is_never_routed_to_witness :
  route_query [("Billing" : str, 1%nat); ("default" : str, 0%nat)] "a Billing question"
  = route_query [("default" : str, 0%nat)] "a Billing question".
Proof.
  apply (uppercase_key_is_never_routed_to
           [("Billing" : str, 1%nat); ("default" : str, 0%nat)] "Billing").
  reflexivity.
Defined.

Lemma dict_get_none {Agent : Type} (agents : list (str * Agent)) (key : str) :
  dict_get agents key = None <-> forall k a, In (k, a) agents -> k <> key.
Proof.
  induction agents as [|[k0 a0] agents IH]; simpl.
  - split; [intros _ k a [] | reflexivity].
  - destruct (str_eqb k0 key) eqn:Hk0.
    + apply str_eqb_eq in Hk0. split; [discriminate|].
      intros H. exfalso. apply (H k0 a0); [now left | exact Hk0].
    + rewrite IH. split.
      * intros H k a [Heq | Hin]; [|apply (H k a Hin)].
        inversion Heq; subst. intros ->.
        rewrite (proj2 (str_eqb_eq key key) eq_refl) in Hk0. discriminate Hk0.
      * intros H k a Hin. apply (H k a). now right.
Qed.

Lemma route_loop_none {Agent : Type} (q : str) (agents todo : list (str * Agent)) :
  route_loop q agents todo = None
  <-> (forall k a, In (k, a) todo -> contains q k = false)
      /\ dict_get agents "default" = None.
Proof.
  induction todo as [|[k0 a0] todo IH]; simpl.
  - split; [intros H; split; [intros k a [] | exact H] | intros [_ H]; exact H].
  - destruct (contains q k0) eqn:Hc.
    + split; [discriminate|]. intros [H _].
      rewrite (H k0 a0 (or_introl eq_refl)) in Hc. discriminate Hc.
    + rewrite IH. split.
      * intros [H Hd]. split; [|exact Hd].
        intros k a [Heq | Hin]; [inversion Heq; subst; exact Hc | apply (H k a Hin)].
      * intros [H Hd]. split; [|exact Hd]. intros k a Hin. apply (H k a). now right.
Qed.

(** X18. [route_query] finds no agent exactly when no key occurs in the
    lowercased query and no key is ['default']; in that case
    [AgentManager.run] raises [ValueError] and runs no agent, and otherwise
    it is the [run] of the agent found. *)
Theorem no_agent_only_without_match_and_default
    {Agent Store : Type} (agent_run : Agent -> str -> Store -> res str * Store)
    (agents : list (str * Agent)) (query : str) (store : Store) :
  (route_query agents query = None
   <-> forall key agent, In (key, agent) agents ->
         contains (lower query) key = false /\ key <> "default")
  /\ (route_query agents query = None ->
      manager_run agent_run agents query store
      = (Raise (mk_exn ValueError None "No agent available to handle the query"), store))
  /\ (forall agent, route_query agents query = Some agent ->
      manager_run agent_run agents query store = agent_run agent query store).
Proof.
  split; [|split].
  - unfold route_query. rewrite route_loop_none, dict_get_none. split.
    + intros [H Hd] key agent Hin. split; [apply (H key agent Hin) | apply (Hd key agent Hin)].
    + intros H. split; intros k a Hin; apply (H k a Hin).
  - intros Hnone. unfold manager_run. rewrite Hnone. reflexivity.
  - intros agent Hsome. unfold manager_run. rewrite Hsome. reflexivity.
Qed.

(** ** The enhanced agent *)

Section ImprovedProperties.

Variable pyfloat : Type.
Variable invoke : OllamaLLM pyfloat -> str -> res str * OllamaLLM pyfloat.

Abbreviation agent_init := (improved_init pyfloat).
Abbreviation agent_chat := (improved_chat pyfloat invoke).
Abbreviation agent_run' := (improved_run pyfloat invoke).
Abbreviation agent_ingest := (ingest_document pyfloat).

Lemma default_only_route (query : str) :
  route_query [("default" : str, default_agent_ref)] query = Some default_agent_ref.
Proof.
  unfold route_query. simpl. destruct (contains _ _); reflexivity.
Qed.

Lemma init_shape (cfg : Config) (created : res (SimpleRAGAgent pyfloat))
    (self : ImprovedRAGAgent pyfloat) :
  agent_init cfg created = Ok self ->
  0 <= CONTEXT_WINDOW cfg
  /\ processor self = mk_DocumentProcessor (CHUNK_SIZE cfg) (CHUNK_OVERLAP cfg)
  /\ context_mgr self
     = mk_ContextManager (CONTEXT_WINDOW cfg) (mk_deque (Some (CONTEXT_WINDOW cfg)) [])
  /\ manager self = [("default" : str, default_agent_ref)]
  /\ default_agent self
     = match created with Ok a => RealAgent a | Raise _ => MockAgent end.
Proof.
  unfold improved_init, new_ContextManager, new_deque.
  destruct (CONTEXT_WINDOW cfg <? 0) eqn:Hneg; simpl; [discriminate|].
  apply Z.ltb_ge in Hneg. intros H. inversion H; subst. simpl.
  repeat split; auto.
Qed.

(** X19. An [ImprovedRAGAgent] as [__init__] builds it answers every input
    with the [run] of its default agent, the fast [SimpleRAGAgent], or, when
    that agent could not be built, with the mock's
    [Error: Could not connect to LLM service. Query was: ...]; it never
    raises, and the call leaves the routing table and the processor as they
    are. *)
Theorem improved_run_is_the_default_agents_run
    (cfg : Config) (created : res (SimpleRAGAgent pyfloat))
    (self : ImprovedRAGAgent pyfloat) (user_input : str) :
  agent_init cfg created = Ok self ->
  let outcome := agent_run' user_input self in
  fst outcome
  = match created with
    | Ok a => fst (run pyfloat invoke user_input a)
    | Raise _ =>
        Ok ("Error: Could not connect to LLM service. Query was: " ++ user_input)
    end
  /\ (exists answer, fst outcome = Ok answer)
  /\ manager (snd outcome) = manager self
  /\ processor (snd outcome) = processor self
  /\ default_agent (snd outcome)
     = match created with
       | Ok a => RealAgent (snd (run pyfloat invoke user_input a))
       | Raise _ => MockAgent
       end.
Proof.
  intros Hinit. apply init_shape in Hinit.
  destruct Hinit as [_ [_ [_ [Hmanager Hdefault]]]].
  cbv zeta. unfold improved_run, improved_chat.
  destruct (manage_context (context_mgr self) ([] ++ [user_input])) as [ctx cm'].
  unfold manager_run. rewrite Hmanager, default_only_route, Hdefault.
  destruct created as [a|e]; unfold object_run.
  - destruct (run pyfloat invoke user_input a) as [r a'] eqn:Hrun. simpl.
    repeat split; try reflexivity.
    pose proof Hrun as Hr. unfold run, try_except, bind, read, invoke_own, ret in Hr.
    destruct (invoke (llm a) _) as [[x|e] l']; inversion Hr; subst; eexists; reflexivity.
  - simpl. repeat split; try reflexivity. eexists; reflexivity.
Qed.

(** X20. With a window bounded by [m >= 1] that holds at most [m]
    messages, [chat] leaves in the window the last [m] of the old messages,
    the passed history and the query, in this order; the query is the last
    message of the window. *)
Theorem chat_records_the_conversation
    (self : ImprovedRAGAgent pyfloat) (query : str) (history_ : list str) (m : Z) :
  maxlen (history (context_mgr self)) = Some m ->
  1 <= m ->
  len (items (history (context_mgr self))) <= m ->
  let self' := snd (agent_chat query history_ self) in
  let all := items (history (context_mgr self)) ++ history_ ++ [query] in
  items (history (context_mgr self')) = skipn (List.length all - Z.to_nat m) all
  /\ last (items (history (context_mgr self'))) [] = query
  /\ len (items (history (context_mgr self'))) <= m
  /\ maxlen (history (context_mgr self')) = Some m.
Proof.
  intros Hmax Hm Hlen. cbv zeta. unfold improved_chat.
  destruct (deque_extend_bounded (history_ ++ [query]) (history (context_mgr self)) m
              Hmax ltac:(lia) Hlen) as [Hmax' [Hlen' Hitems']].
  unfold manage_context.
  destruct (manager_run _ (manager self) query (default_agent self)) as [r o'].
  simpl snd. simpl context_mgr. simpl history.
  split; [exact Hitems'|]. split; [|split; [exact Hlen' | exact Hmax']].
  rewrite Hitems'.
  set (old := items (history (context_mgr self))) in *.
  replace (old ++ history_ ++ [query]) with ((old ++ history_) ++ [query])
    by (now rewrite <- app_assoc).
  rewrite skipn_app, length_app. simpl List.length.
  replace (List.length (old ++ history_) + 1 - Z.to_nat m - List.length (old ++ history_))%nat
    with 0%nat by lia.
  simpl skipn. apply last_last.
Qed.

(** X21. When [overlap] differs from [chunk_size] (as under the default
    configuration), [ingest_document] returns [None] without raising and
    leaves the agent as it was: the chunks are not stored, and every later
    [run] behaves as if nothing had been ingested. *)
Theorem ingest_document_has_no_effect
    (self : ImprovedRAGAgent pyfloat) (text : str) :
  overlap (processor self) <> chunk_size (processor self) ->
  agent_ingest text self = (Ok tt, self)
  /\ forall user_input,
       agent_run' user_input (snd (agent_ingest text self))
       = agent_run' user_input self.
Proof.
  intros Hcfg. unfold ingest_document.
  assert (Hok : exists chunks, process_document (processor self) text = Ok chunks).
  { destruct text as [|c text]; [eexists; reflexivity|].
    rewrite process_document_chunks by (try discriminate; lia).
    eexists; reflexivity. }
  destruct Hok as [chunks Hok]. rewrite Hok. simpl. split; reflexivity.
Qed.

End ImprovedProperties.

Lemma improved_run_is_the_default_agents_run_witness :
  exists self,
    improved_init Q default_config (Ok sample_agent) = Ok self
    /\ fst (improved_run Q answering_service "where is the cat" self)
       = fst (run Q answering_service "where is the cat" sample_agent).
Proof.
  eexists. split; [reflexivity|].
  refine (proj1 (improved_run_is_the_default_agents_run Q answering_service
                   default_config (Ok sample_agent) _ "where is the cat" eq_refl)).
Defined.

Lemma chat_records_the_conversation_witness :
  let self :=
    mk_ImprovedRAGAgent Q default_processor
      (mk_ContextManager 2 (mk_deque (Some 2) (strs ["old"])))
      [("default" : str, default_agent_ref)] MockAgent in
  items (history (context_mgr
           (snd (improved_chat Q answering_service "now" (strs ["before"]) self))))
  = strs ["before"; "now"].
Proof.
  cbv zeta.
  refine (eq_trans
            (proj1 (chat_records_the_conversation Q answering_service
                      (mk_ImprovedRAGAgent Q default_processor
                         (mk_ContextManager 2 (mk_deque (Some 2) (strs ["old"])))
                         [("default" : str, default_agent_ref)] MockAgent)
                      "now" (strs ["before"]) 2 eq_refl _ _)) _);
    [lia | vm_compute; discriminate | reflexivity].
Defined.

Lemma ingest_document_has_no_effect_witness :
  ingest_document Q "some text to ingest"
    (mk_ImprovedRAGAgent Q default_processor
       (mk_ContextManager 5 (mk_deque (Some 5) []))
       [("default" : str, default_agent_ref)] MockAgent)
  = (Ok tt,
     mk_ImprovedRAGAgent Q default_processor
       (mk_ContextManager 5 (mk_deque (Some 5) []))
       [("default" : str, default_agent_ref)] MockAgent).
Proof.
  refine (proj1 (ingest_document_has_no_effect Q answering_service
                   (mk_ImprovedRAGAgent Q default_processor
                      (mk_ContextManager 5 (mk_deque (Some 5) []))
                      [("default" : str, default_agent_ref)] MockAgent)
                   "some text to ingest" _)).
  simpl. lia.
Defined.

(** ** Loading the knowledge base *)

Lemma load_file_appends (fs : file_system) (knowledge_content filename : str) :
  load_file fs knowledge_content filename
  = knowledge_content ++ file_section fs filename.
Proof.
  unfold file_section, load_file.
  destruct (endswith filename ".txt").
  - destruct (read_text fs _); simpl; repeat (rewrite <- app_assoc; simpl);
      rewrite ?app_nil_r; reflexivity.
  - destruct (endswith filename ".pdf"); [|now rewrite app_nil_r].
    destruct (strip _); simpl; repeat (rewrite <- app_assoc; simpl);
      rewrite ?app_nil_r; reflexivity.
Qed.

Lemma load_loop_appends (fs : file_system) (filenames : list str) (knowledge_content : str) :
  fold_left (load_file fs) filenames knowledge_content
  = knowledge_content ++ List.concat (map (file_section fs) filenames).
Proof.
  revert knowledge_content; induction filenames as [|f filenames IH];
    intros knowledge_content; simpl.
  - now rewrite app_nil_r.
  - rewrite IH, load_file_appends, <- app_assoc. reflexivity.
Qed.

(** X22. [load_knowledge_base] raises in two cases only, and then what
    the failing call raised: [knowledge_base.txt] exists and cannot be opened
    or read (the folder is then not looked at), or [doccydocs] exists and
    listing it raises.  Otherwise it returns the content of
    [knowledge_base.txt] followed by a blank line, when the file exists, and
    then one section per entry of [doccydocs] in listing order, each section
    depending on its own file only.  A file of the folder that cannot be
    opened or read never fails the load. *)
Theorem load_is_main_file_then_sections (fs : file_system) :
  let sections : res str :=
    match doccydocs fs with
    | None => Ok []
    | Some (Raise e) => Raise e
    | Some (Ok filenames) => Ok (List.concat (map (file_section fs) filenames))
    end in
  load_knowledge_base fs
  = match knowledge_base_txt fs with
    | None => sections
    | Some (Content s) =>
        match sections with
        | Ok sections => Ok ((s ++ nl ++ nl) ++ sections)
        | Raise e => Raise e
        end
    | Some (OpenFails e) => Raise e
    | Some (ReadFails e) => Raise e
    end.
Proof.
  cbv zeta. unfold load_knowledge_base.
  destruct (knowledge_base_txt fs) as [[e|e|s]|]; simpl; try reflexivity.
  - destruct (doccydocs fs) as [[filenames|e]|]; simpl.
    + now rewrite load_loop_appends.
    + reflexivity.
    + now rewrite app_nil_r.
  - destruct (doccydocs fs) as [[filenames|e]|]; simpl; [|reflexivity|reflexivity].
    now rewrite load_loop_appends.
Qed.

Example ex_load_doccydocs_is_a_file :
  load_knowledge_base doccydocs_is_a_file
  = Raise (mk_exn (OtherException "NotADirectoryError") (Some 20)
             "[Errno 20] Not a directory: 'doccydocs'").
Proof. reflexivity. Qed.

Lemma contains_app_r (a b p : str) : contains b p = true -> contains (a ++ b) p = true.
Proof.
  rewrite !contains_iff. intros [pre [post ->]].
  exists (a ++ pre), post. now rewrite <- app_assoc.
Qed.

Lemma contains_app_l (a b p : str) : contains a p = true -> contains (a ++ b) p = true.
Proof.
  rewrite !contains_iff. intros [pre [post ->]].
  exists pre, (post ++ b). now rewrite <- !app_assoc.
Qed.

Lemma contains_refl (s : str) : contains s s = true.
Proof. apply contains_iff. exists [], []. now rewrite app_nil_r. Qed.

Lemma contains_concat (pieces : list str) (p : str) :
  In p pieces -> contains (List.concat pieces) p = true.
Proof.
  induction pieces as [|x pieces IH]; intros Hin; [contradiction|]. simpl.
  destruct Hin as [-> | Hin].
  - apply contains_app_l, contains_refl.
  - apply contains_app_r, IH, Hin.
Qed.

(** X23. When the load succeeds, every [.txt] entry of [doccydocs] that
    can be read is in the knowledge base: its header line
    [=== name ===], its content and a blank line occur in it. *)
Theorem readable_text_file_is_loaded
    (fs : file_system) (filenames : list str) (filename content kb : str) :
  load_knowledge_base fs = Ok kb ->
  doccydocs fs = Some (Ok filenames) ->
  In filename filenames ->
  endswith filename ".txt" = true ->
  read_text fs ("doccydocs/" ++ filename) = Content content ->
  contains kb ("=== " ++ filename ++ " ===" ++ nl ++ content ++ nl ++ nl) = true.
Proof.
  intros Hload Hdir Hin Htxt Hread.
  assert (Hsection : file_section fs filename
                     = "=== " ++ filename ++ " ===" ++ nl ++ content ++ nl ++ nl).
  { unfold file_section, load_file. rewrite Htxt, Hread. simpl.
    rewrite <- !app_assoc. reflexivity. }
  assert (Hsections : contains (List.concat (map (file_section fs) filenames))
                        (file_section fs filename) = true)
    by (apply contains_concat, in_map, Hin).
  unfold load_knowledge_base in Hload. rewrite Hdir in Hload.
  rewrite <- Hsection.
  destruct (knowledge_base_txt fs) as [[e|e|s]|]; simpl in Hload;
    try discriminate Hload; inversion Hload; subst kb;
    rewrite load_loop_appends; apply contains_app_r; exact Hsections.
Qed.

Lemma readable_text_file_is_loaded_witness :
  exists kb,
    load_knowledge_base sample_file_system = Ok kb
    /\ contains kb ("=== cats.txt ===" ++ nl ++ "cat facts" ++ nl ++ nl) = true.
Proof.
  eexists. split; [reflexivity|].
  apply (readable_text_file_is_loaded sample_file_system
           (strs ["cats.txt"; "locked.txt"; "scan.pdf"; "notes.md"]) "cats.txt" "cat facts");
    try reflexivity.
  left. reflexivity.
Defined.

(** ** Uploads *)

Lemma split_last_none (sep : ascii) (s : str) :
  Forall (fun c => c <> sep) s -> split_last sep s = None.
Proof.
  induction 1 as [|c s Hc Hs IH]; [reflexivity|]. simpl. rewrite IH.
  apply Ascii.eqb_neq in Hc. now rewrite Hc.
Qed.

Lemma split_last_app (sep : ascii) (stem ext : str) :
  Forall (fun c => c <> sep) ext ->
  split_last sep (stem ++ sep :: ext) = Some (stem, ext).
Proof.
  intros Hext. induction stem as [|c stem IH]; simpl.
  - rewrite (split_last_none sep ext Hext), Ascii.eqb_refl. reflexivity.
  - rewrite IH. reflexivity.
Qed.

Lemma split_last_some (sep : ascii) (s before after : str) :
  split_last sep s = Some (before, after) ->
  s = before ++ sep :: after /\ Forall (fun c => c <> sep) after.
Proof.
  revert before; induction s as [|c s IH]; intros before H; simpl in H; [discriminate|].
  destruct (split_last sep s) as [[b a]|] eqn:Hs.
  - inversion H; subst. destruct (IH b eq_refl) as [-> Ha]. split; [reflexivity | exact Ha].
  - destruct (Ascii.eqb c sep) eqn:Hc; [|discriminate].
    inversion H; subst. apply Ascii.eqb_eq in Hc. subst c. split; [reflexivity|].
    clear -Hs. induction after as [|x after IH]; [constructor|]. simpl in Hs.
    destruct (split_last sep after) as [[b a]|]; [discriminate|].
    destruct (Ascii.eqb x sep) eqn:Hx; [discriminate|].
    constructor; [apply Ascii.eqb_neq; exact Hx | apply IH; reflexivity].
Qed.

Lemma allowed_file_of_extension (stem extension : str) :
  Forall (fun c => c <> "."%char) extension ->
  mem (lower extension) ALLOWED_EXTENSIONS = true ->
  allowed_file (stem ++ "." ++ extension) = true.
Proof.
  intros Hext Hmem. unfold allowed_file, rsplit1.
  change (stem ++ "." ++ extension) with (stem ++ "."%char :: extension).
  rewrite (split_last_app "."%char stem extension Hext). cbn [nth_error].
  rewrite Hmem, andb_true_r.
  apply contains_iff. exists stem, extension. reflexivity.
Qed.

(** X24. [allowed_file] accepts a file name exactly when the name has a
    dot and the text after its last dot, lowercased, is one of [txt], [pdf],
    [doc], [docx], [md]. *)
Theorem allowed_file_looks_at_last_extension (filename : str) :
  allowed_file filename = true
  <-> exists stem extension,
        filename = stem ++ "." ++ extension
        /\ Forall (fun c => c <> "."%char) extension
        /\ mem (lower extension) ALLOWED_EXTENSIONS = true.
Proof.
  unfold allowed_file, rsplit1. split.
  - intros H. apply andb_true_iff in H. destruct H as [_ H].
    destruct (split_last "."%char filename) as [[before after]|] eqn:Hs;
      [|discriminate H].
    simpl in H. apply split_last_some in Hs. destruct Hs as [-> Hafter].
    exists before, after. auto.
  - intros [stem [extension [-> [Hext Hmem]]]].
    apply allowed_file_of_extension; assumption.
Qed.

Lemma sep_free_prefix_unique (sep : ascii) (a b x y : str) :
  Forall (fun c => c <> sep) a -> Forall (fun c => c <> sep) b ->
  a ++ sep :: x = b ++ sep :: y -> a = b.
Proof.
  intros Ha. revert b. induction Ha as [|c a Hc Ha IH]; intros b Hb Heq.
  - destruct Hb as [|d b Hd Hb]; [reflexivity|].
    simpl in Heq. inversion Heq; subst. contradiction.
  - destruct Hb as [|d b Hd Hb].
    + simpl in Heq. inversion Heq; subst. contradiction.
    + simpl in Heq. inversion Heq; subst. f_equal. apply IH; assumption.
Qed.

Lemma endswith_extension (stem ext suffix : str) :
  Forall (fun c => c <> "."%char) ext ->
  Forall (fun c => c <> "."%char) suffix ->
  endswith (stem ++ "." ++ ext) ("." ++ suffix) = true -> ext = suffix.
Proof.
  intros Hext Hsuf H. unfold endswith in H.
  apply startswith_iff in H. destruct H as [post H].
  change (stem ++ "." ++ ext) with (stem ++ "."%char :: ext) in H.
  change ("." ++ suffix) with (["."%char] ++ suffix) in H.
  rewrite !rev_app_distr in H. simpl in H. rewrite <- !app_assoc in H. simpl in H.
  apply sep_free_prefix_unique in H.
  - rewrite <- (rev_involutive ext), <- (rev_involutive suffix). now f_equal.
  - apply Forall_rev. exact Hext.
  - apply Forall_rev. exact Hsuf.
Qed.

(** X25. A file name that [allowed_file] accepts but that does not
    end in [.txt] or [.pdf] as written (a [.md], [.doc] or [.docx] file, or
    an extension in capitals such as [.TXT]) adds nothing to the knowledge
    base when the folder is loaded. *)
Theorem accepted_upload_can_be_ignored_by_loader
    (fs : file_system) (knowledge_content stem extension : str) :
  Forall (fun c => c <> "."%char) extension ->
  mem (lower extension) ALLOWED_EXTENSIONS = true ->
  extension <> "txt" ->
  extension <> "pdf" ->
  allowed_file (stem ++ "." ++ extension) = true
  /\ load_file fs knowledge_content (stem ++ "." ++ extension) = knowledge_content.
Proof.
  intros Hext Hmem Htxt Hpdf. split.
  - apply allowed_file_of_extension; assumption.
  - unfold load_file.
    destruct (endswith (stem ++ "." ++ extension) ".txt") eqn:E1.
    + apply (endswith_extension stem extension "txt") in E1;
        [contradiction | exact Hext | repeat constructor; discriminate].
    + destruct (endswith (stem ++ "." ++ extension) ".pdf") eqn:E2; [|reflexivity].
      apply (endswith_extension stem extension "pdf") in E2;
        [contradiction | exact Hext | repeat constructor; discriminate].
Qed.

Lemma accepted_upload_can_be_ignored_by_loader_witness :
  allowed_file "NOTES.TXT" = true
  /\ load_file sample_file_system "cat facts" "NOTES.TXT" = "cat facts".
Proof.
  apply (accepted_upload_can_be_ignored_by_loader sample_file_system
           "cat facts" "NOTES" "TXT");
    [repeat constructor; discriminate | reflexivity | discriminate | discriminate].
Defined.

(** ** The chat endpoint *)

Section ChatProperties.

Variable pyfloat : Type.
Variables float_0_3 float_0_9 float_1_1 : pyfloat.
Variable ECONNREFUSED : Z.
Variable invoke : OllamaLLM pyfloat -> str -> res str * OllamaLLM pyfloat.

Abbreviation app_chat :=
  (chat pyfloat float_0_3 float_0_9 float_1_1 ECONNREFUSED invoke).
Abbreviation fresh_agent := (__init__ pyfloat float_0_3 float_0_9 float_1_1).
Abbreviation advanced :=
  (run_advanced pyfloat float_0_9 float_1_1 ECONNREFUSED invoke).

Lemma run_advanced_outcome (self : SimpleRAGAgent pyfloat) (user_input : str)
    (temperature : pyfloat) (max_context : Z) (prompt_strategy : str) :
  exists answer,
    advanced user_input temperature max_context prompt_strategy self
    = (Ok answer, self).
Proof.
  unfold run_advanced, try_except, bind, read, invoke_local, ret.
  destruct (fst (invoke _ _)) as [r|e]; [eexists; reflexivity|].
  destruct (connection_refused ECONNREFUSED e); eexists; reflexivity.
Qed.

(** X26. An advanced chat request with response mode [fast], a message,
    and a standard [SimpleRAGAgent] as the global agent reloads the
    knowledge base: when that succeeds the global agent afterwards is a
    fresh fast agent (model [llama3.2:1b]) and the reply is the answer of
    [run_advanced] on it; when the reload fails the reply is [Error: ...]
    with the error's text and the global agent stays as it was. *)
Theorem fast_advanced_request_replaces_the_agent
    (data : chat_request pyfloat) (fs : file_system)
    (a : SimpleRAGAgent pyfloat) (message : str) :
  req_message data = Some message ->
  message <> [] ->
  req_mode data = Some ("advanced" : str) ->
  req_response_mode data = Some ("fast" : str) ->
  fast_mode a = false ->
  match load_knowledge_base fs with
  | Ok loaded =>
      snd (app_chat data fs (SimpleApp a)) = SimpleApp (fresh_agent true loaded)
      /\ model (llm (fresh_agent true loaded)) = ("llama3.2:1b" : str)
      /\ Ok (fst (app_chat data fs (SimpleApp a)))
         = fst (advanced message
                  (get_or (req_temperature data) float_0_3)
                  (get_or (req_max_context data) 16384)
                  (get_or (req_prompt_strategy data) "simple")
                  (fresh_agent true loaded))
  | Raise e =>
      app_chat data fs (SimpleApp a) = ("Error: " ++ exn_str e, SimpleApp a)
  end.
Proof.
  intros Hmsg Hne Hmode Hresp Hfast.
  unfold chat, chat_body. rewrite Hmsg, Hmode, Hresp. cbn [get_or].
  destruct message as [|c message]; [contradiction|].
  change (str_eqb "advanced" "advanced") with true.
  change (str_eqb "fast" "fast") with true. rewrite Hfast. simpl andb.
  unfold new_SimpleRAGAgent.
  destruct (load_knowledge_base fs) as [loaded|e]; simpl res_bind; [|reflexivity].
  destruct (run_advanced_outcome (fresh_agent true loaded) (c :: message)
              (get_or (req_temperature data) float_0_3)
              (get_or (req_max_context data) 16384)
              (get_or (req_prompt_strategy data) "simple")) as [answer Hrun].
  rewrite Hrun. simpl. repeat split; reflexivity.
Qed.

End ChatProperties.

Lemma fast_advanced_request_replaces_the_agent_witness :
  snd (chat Q (3 # 10)%Q (9 # 10)%Q (11 # 10)%Q 111 answering_service
         (mk_chat_request (Some ("where is the cat" : str)) (Some ("advanced" : str))
            None None None (Some ("fast" : str)))
         sample_file_system (SimpleApp sample_agent))
  = SimpleApp (__init__ Q (3 # 10)%Q (9 # 10)%Q (11 # 10)%Q true
                 ("=== cats.txt ===" ++ nl ++ "cat facts" ++ nl ++ nl)).
Proof.
  refine (proj1 (fast_advanced_request_replaces_the_agent Q (3 # 10)%Q (9 # 10)%Q
                   (11 # 10)%Q 111 answering_service
                   (mk_chat_request (Some ("where is the cat" : str))
                      (Some ("advanced" : str)) None None None (Some ("fast" : str)))
                   sample_file_system sample_agent "where is the cat"
                   eq_refl _ eq_refl eq_refl eq_refl)).
  discriminate.
Defined.
